(** * Query/product relevance training pipeline: text normalizer, augmenter,
      dataset builder and trainer

    A shallow embedding of [train.py] and [augmentation.py].

    Python values are embedded as follows.
    - A [str] is the list of its code points ([list N]).  The ASCII part of
      the character tables used by [re] and by [str.lower]/[str.split] is
      written out; for code points from 128 on the tables of the Unicode
      character database are a parameter ([Unicode]) of the functions that
      consult them.
    - A float literal of the gain table is the rational it denotes; gains
      are only copied and compared with [0].
    - An exception is a value of [exn]; a computation that may raise returns
      [result A].
    - Third-party calls (numpy's generators, scikit-learn's splitter, the
      synonym augmenter, the model's [fit]/[save]) are parameters of the
      section that uses them. *)

From Stdlib Require Import QArith Qround Ascii String.
From stdpp Require Import gmap strings list.

(** ** Python strings *)

Module Py.

Abbreviation str := (list N).

(** A Rocq string literal read as a Python [str] of ASCII characters. *)
Fixpoint lit (s : string) : str :=
  match s with
  | EmptyString => []
  | String a s' => N_of_ascii a :: lit s'
  end.

(** The rows of the Unicode character database for code points >= 128, as
    far as the pipeline consults them. *)
Record Unicode := {
  uni_isalnum : N → bool;      (* [str.isalnum], behind [\w] of [re] *)
  uni_lower : N → str;         (* [str.lower] of one character *)
  uni_isspace : N → bool       (* [str.isspace], behind [str.split()] *)
}.

Definition in_range (lo hi c : N) : bool := ((lo <=? c) && (c <=? hi))%N.

Definition is_ascii (c : N) : bool := (c <? 128)%N.

(** [[A-Za-z]] of a [str] pattern: the ASCII letters only. *)
Definition is_letter (c : N) : bool := in_range 65 90 c || in_range 97 122 c.

Definition is_digit (c : N) : bool := in_range 48 57 c.

Definition SPACE : N := 32%N.

Section Tables.
Variable U : Unicode.

(** [\w]: alphanumeric or the underscore. *)
Definition is_word (c : N) : bool :=
  if is_ascii c then is_letter c || is_digit c || (c =? 95)%N
  else uni_isalnum U c.

(** [str.lower] on one character. *)
Definition lower_char (c : N) : str :=
  if is_ascii c then [if in_range 65 90 c then (c + 32)%N else c]
  else uni_lower U c.

(** [s.lower()], character by character.  (Python lowers one character by
    its neighbours, the capital sigma U+03A3, which is not followed here.) *)
Definition lower (s : str) : str := flat_map lower_char s.

(** Whitespace of [str.split()]: tab to carriage return, the four
    separators 28..31 and the space, plus what Unicode adds. *)
Definition is_space (c : N) : bool :=
  if is_ascii c then in_range 9 13 c || in_range 28 32 c
  else uni_isspace U c.

(** [re.split(r'\W+', s)]: the fields between maximal runs of non-word
    characters; [cur] is the field being read and [in_sep] tells that the
    previous character belonged to a separator. *)
Fixpoint re_split_W_go (cur : str) (in_sep : bool) (s : str) : list str :=
  match s with
  | [] => [cur]
  | c :: s' =>
      if is_word c then re_split_W_go (cur ++ [c]) false s'
      else if in_sep then re_split_W_go cur true s'
      else cur :: re_split_W_go [] true s'
  end.

Definition re_split_W (s : str) : list str := re_split_W_go [] false s.

(** [s.split()]: the maximal runs of non-whitespace characters. *)
Fixpoint split_go (cur : str) (s : str) : list str :=
  match s with
  | [] => match cur with [] => [] | _ => [cur] end
  | c :: s' =>
      if is_space c
      then match cur with [] => split_go [] s' | _ => cur :: split_go [] s' end
      else split_go (cur ++ [c]) s'
  end.

Definition split (s : str) : list str := split_go [] s.

End Tables.

(** [sep.join(l)] *)
Fixpoint join (sep : str) (l : list str) : str :=
  match l with
  | [] => []
  | [w] => w
  | w :: l' => w ++ sep ++ join sep l'
  end.

Fixpoint starts_with (p s : str) : bool :=
  match p, s with
  | [], _ => true
  | _ :: _, [] => false
  | a :: p', b :: s' => (a =? b)%N && starts_with p' s'
  end.

(** The first alternative of [p1|p2|...] (literals) that matches at the
    head of [s]. *)
Definition match_alt (pats : list str) (s : str) : option str :=
  List.find (λ p, starts_with p s) pats.

(** Left-to-right replacement of the non-overlapping matches of an
    alternation of non-empty literals by [repl]; [skip] counts the
    characters of the current match still to be consumed.  This is
    [re.sub('(p1|p2|...)', repl, s)], and [s.replace(p, repl)] for a single
    literal. *)
Fixpoint sub_alt_go (pats : list str) (repl : str) (skip : nat) (s : str) : str :=
  match s with
  | [] => []
  | c :: s' =>
      match skip with
      | S k => sub_alt_go pats repl k s'
      | O =>
          match match_alt pats s with
          | Some p => repl ++ sub_alt_go pats repl (length p - 1) s'
          | None => c :: sub_alt_go pats repl 0 s'
          end
      end
  end.

Definition re_sub_alt (pats : list str) (repl : str) (s : str) : str :=
  sub_alt_go pats repl 0 s.

Definition replace (old new : str) (s : str) : str := sub_alt_go [old] new 0 s.

(** [re.sub("[A-Za-z]+", lambda ele: " " + ele[0] + " ", s)]: every maximal
    run of ASCII letters is put between two spaces; [in_run] tells that the
    previous character was a letter. *)
Fixpoint space_letter_runs (in_run : bool) (s : str) : str :=
  match s with
  | [] => if in_run then [SPACE] else []
  | c :: s' =>
      if is_letter c
      then (if in_run then [c] else [SPACE; c]) ++ space_letter_runs true s'
      else (if in_run then [SPACE; c] else [c]) ++ space_letter_runs false s'
  end.

(** [re.compile(r'<[^>]+>', re.S).sub('', s)]: a match is a [<], at least
    one character other than [>], and the first [>] after them.
    [tag_closes s] tells that the text after a [<] completes a match. *)
Fixpoint tag_closes (seen : bool) (s : str) : bool :=
  match s with
  | [] => false
  | c :: s' => if (c =? 62)%N then seen else tag_closes true s'
  end.

Fixpoint strip_tags_go (in_tag : bool) (s : str) : str :=
  match s with
  | [] => []
  | c :: s' =>
      if in_tag then strip_tags_go (negb (c =? 62)%N) s'
      else if (c =? 60)%N && tag_closes false s' then strip_tags_go true s'
      else c :: strip_tags_go false s'
  end.

(** [pandas.unique]: the distinct values in order of first appearance. *)
Definition unique `{EqDecision A} (l : list A) : list A :=
  fold_left (λ acc x, if decide (x ∈ acc) then acc else acc ++ [x]) l [].

(** *** Exceptions *)

Inductive exn :=
| ZeroDivisionError
| ValueError (msg : string)
| KeyError (key : string)
| IndexError
| AttributeError (attr : string)
| NameError (name : string).

Inductive result (A : Type) :=
| Ok (a : A)
| Raise (e : exn).
Arguments Ok {A} a.
Arguments Raise {A} e.

#[global] Instance result_ret : MRet result := λ A a, Ok a.
#[global] Instance result_bind : MBind result :=
  λ A B f m, match m with Ok a => f a | Raise e => Raise e end.

Fixpoint mapM_result {A B} (f : A → result B) (l : list A) : result (list B) :=
  match l with
  | [] => Ok []
  | x :: l' => y ← f x; ys ← mapM_result f l'; Ok (y :: ys)
  end.

(** [d[k]] on a dict literal. *)
Fixpoint dict_get {V} (d : list (str * V)) (k : str) : option V :=
  match d with
  | [] => None
  | (k', v) :: d' => if decide (k' = k) then Some v else dict_get d' k
  end.

(** *** Data frames *)

(** A cell of a frame whose columns are not fixed by the program. *)
Inductive value :=
| VInt (z : Z)
| VFloat (q : Q)
| VStr (s : str)
| VNaN.

Record DataFrame := {
  columns : list string;
  records : list (list value)
}.

Fixpoint index_of (name : string) (names : list string) : option nat :=
  match names with
  | [] => None
  | n :: names' => if decide (n = name) then Some 0 else S <$> index_of name names'
  end.

(** [df.name]: attribute access to a column. *)
Definition getattr (df : DataFrame) (name : string) : result (list value) :=
  match index_of name (columns df) with
  | None => Raise (AttributeError name)
  | Some j => Ok (omap (λ r, r !! j) (records df))
  end.

(** [df.iloc[i][name]] *)
Definition iloc_get (df : DataFrame) (i : nat) (name : string) : result value :=
  match records df !! i with
  | None => Raise IndexError
  | Some r =>
      match index_of name (columns df) with
      | None => Raise (KeyError name)
      | Some j => match r !! j with Some v => Ok v | None => Raise (KeyError name) end
      end
  end.

End Py.

(** ** augmentation.py *)

Module Augmentation.
Import Py.

Definition esci_label2gain : list (str * Q) :=
  [ (lit "exact", 1%Q); (lit "substitute", (1 # 10)%Q);
    (lit "complement", (1 # 100)%Q); (lit "irrelevant", 0%Q) ].

Definition default_samples : nat := Z.to_nat 150000.

(** [new['esci_label'].apply(lambda label: esci_label2gain[label])] on one
    cell. *)
Definition gain_of (label : value) : result value :=
  match label with
  | VStr s =>
      match dict_get esci_label2gain s with
      | Some g => Ok (VFloat g)
      | None => Raise (KeyError "esci_label2gain")
      end
  | _ => Raise (KeyError "esci_label2gain")
  end.

Section Augmenter.

(** The [k]-th number drawn by [np.random.randint], before it is reduced to
    the requested range. *)
Variable random_draw : nat → nat.

(** [SynonymAug(aug_src='wordnet').augment(text)] at the [k]-th iteration. *)
Variable synonym_augment : nat → value → value.

(** What [shuffle(df.append(new).reset_index(drop=True))] does to the
    control flow: [None] when it returns, the exception otherwise.  Its
    result is assigned to a local that is not read again. *)
Variable shuffle_merged : DataFrame → DataFrame → option exn.

(** [np.random.randint(0, high, size)]: an empty range is refused, unless
    no number is asked for. *)
Definition randint (high size : nat) : result (list nat) :=
  if decide (high = 0 ∧ size ≠ 0) then Raise (ValueError "low >= high")
  else Ok ((λ k, random_draw k `mod` high) <$> seq 0 size).

(** One iteration of the augmentation loop: the cells appended to
    [new_text], [product_titles] and [esci_labels]. *)
Definition augment_one (df : DataFrame) (k i : nat) : result (list value) :=
  text ← iloc_get df i "query";
  esci_label ← iloc_get df i "esci_label";
  product_title ← iloc_get df i "product_title";
  let augmented_text := synonym_augment k text in
  Ok [augmented_text; product_title; esci_label].

Fixpoint augment_loop (df : DataFrame) (k : nat) (draws : list nat) : result (list (list value)) :=
  match draws with
  | [] => Ok []
  | i :: draws' =>
      row ← augment_one df k i;
      rows ← augment_loop df (S k) draws';
      Ok (row :: rows)
  end.

(** The frame [new]: the loop, the frame of its three lists and the [gain]
    column. *)
Definition new_frame (df : DataFrame) (samples : nat) : result DataFrame :=
  draws ← randint (length (records df)) samples;
  rows ← augment_loop df 0 draws;
  rows ← mapM_result (λ row,
            match row with
            | [q; t; l] => g ← gain_of l; Ok [q; t; l; g]
            | _ => Raise IndexError
            end) rows;
  Ok {| columns := ["query"; "product_title"; "esci_label"; "gain"]; records := rows |}.

Definition augment_text (df : DataFrame) (samples : nat) : result DataFrame :=
  (* selecting the minority class samples: df_n is not used afterwards *)
  target ← getattr df "target";
  new ← new_frame df samples;
  match shuffle_merged df new with
  | Some e => Raise e
  | None => Ok new
  end.

End Augmenter.

End Augmentation.

(** ** train.py *)

Module Train.
Import Py.

(** *** The text normalizer *)

Definition clean_text (text : str) : str := strip_tags_go false text.

Definition standardize_units (text : str) : str :=
  let text := lit " " ++ text ++ lit " " in
  let text := re_sub_alt [lit " gal "; lit " gals "; lit " galon "] (lit " gallon ") text in
  let text := re_sub_alt [lit " ft "; lit " fts "; lit " feets "; lit " foot "; lit " foots "]
                (lit " feet ") text in
  let text := re_sub_alt [lit " squares "; lit " sq "] (lit " square ") text in
  let text := re_sub_alt [lit " lb "; lit " lbs "; lit " pounds "] (lit " pound ") text in
  let text := re_sub_alt [lit " oz "; lit " ozs "; lit " ounces "; lit " ounc "]
                (lit " ounce ") text in
  let text := re_sub_alt [lit " yds "; lit " yd "; lit " yards "] (lit " yard ") text in
  text.

Section WithUnicode.
Variable U : Unicode.

(** The text on which [preprocess] calls [standardize_units] (its first
    four statements). *)
Definition spaced_words (text : str) : str :=
  let text := replace (lit "in.") (lit " inch ") text in
  let words := re_split_W U text in
  let words := lower U <$> words in
  space_letter_runs false (join (lit " ") words).

Definition preprocess (text : str) : str :=
  let res := spaced_words text in
  let res := standardize_units res in
  let cleaned := join (lit " ") (split U res) in
  cleaned.

End WithUnicode.

(** *** The dataset builder *)

Inductive Locale := us | es | jp.

Definition locale_name (l : Locale) : str :=
  match l with us => lit "us" | es => lit "es" | jp => lit "jp" end.

(** The parsed command line; the two input files are passed as frames. *)
Record Args := {
  locale : Locale;
  model_save_path : string;
  random_state : Z;
  n_dev_queries : Z;
  train_batch_size : Z
}.

(** A row of the pairs file. *)
Record Pair := {
  p_query_id : Z;
  p_query : str;
  p_query_locale : str;
  p_esci_label : str;
  p_product_id : str
}.

(** A row of the product catalogue; a missing title reads as NaN. *)
Record Product := {
  c_product_id : str;
  c_product_title : option str;
  c_product_locale : str
}.

(** A row of [df] once it is reduced to its five columns. *)
Record Row := {
  query_id : Z;
  query : str;
  product_title : str;
  gain : Q;
  esci_label : str
}.

Definition esci_label2gain : list (str * Q) :=
  [ (lit "exact", 1%Q); (lit "substitute", (1 # 10)%Q);
    (lit "complement", (1 # 100)%Q); (lit "irrelevant", 0%Q) ].

(** [pd.merge(df, df_product_catalogue, how='left', ...)] on the keys
    [(product_id, query_locale)] and [(product_id, product_locale)]: every
    pair with each of its catalogue rows, or once with a NaN title. *)
Definition merge_left (df : list Pair) (cat : list Product) : list (Pair * option str) :=
  p ← df;
  match filter (λ c, c_product_id c = p_product_id p ∧ c_product_locale c = p_query_locale p) cat with
  | [] => [(p, None)]
  | matches => (λ c, (p, c_product_title c)) <$> matches
  end.

(** [df[df[col_product_title].notna()]] *)
Definition notna_title (df : list (Pair * option str)) : list (Pair * str) :=
  omap (λ '(p, t), (λ t, (p, t)) <$> t) df.

(** The frame after "1. Load data" up to the filter on titles. *)
Definition joined_frame (loc : Locale) (df : list Pair) (cat : list Product) : list (Pair * str) :=
  let df := filter (λ p, p_query_locale p = locale_name loc) df in
  let cat := filter (λ c, c_product_locale c = locale_name loc) cat in
  notna_title (merge_left df cat).

(** [args.n_dev_queries / len(list_query_id)], for a number of dev queries
    within the range of a float. *)
Definition true_div (a : Z) (b : nat) : result Q :=
  match b with
  | O => Raise ZeroDivisionError
  | S _ => Ok (a # Pos.of_nat b)%Q
  end.

Section Builder.

(** The array rearranged by the permutation that numpy's generator draws
    for a seed. *)
Variable shuffled : Z → list Z → list Z.

(** [ceil(test_size * n_samples)] as floating point computes it. *)
Variable float_ceil_mul : Q → nat → nat.

(** scikit-learn's [train_test_split(a, test_size=..., random_state=...)]
    for a float [test_size]: the size check, the two counts, and the slices
    of the permuted array. *)
Definition train_test_split (a : list Z) (test_size : Q) (seed : Z) : result (list Z * list Z) :=
  let n_samples := length a in
  if Qle_bool test_size 0 || Qle_bool 1 test_size
  then Raise (ValueError "test_size should be a float in the (0, 1) range")
  else
    let n_test := float_ceil_mul test_size n_samples in
    let n_train := (Z.of_nat n_samples - Z.of_nat n_test)%Z in
    if decide (n_train = 0%Z)
    then Raise (ValueError "the resulting train set will be empty")
    else
      let permutation := shuffled seed a in
      let test := take n_test permutation in
      let train := take (Z.to_nat n_train) (drop n_test permutation) in
      Ok (train, test).

(** [df[col_gain] = df[col_esci_label].apply(...)] and the selection of the
    five columns, on one row. *)
Definition with_gain (r : Pair * str) : result Row :=
  match dict_get esci_label2gain (p_esci_label r.1) with
  | Some g =>
      Ok {| query_id := p_query_id r.1; query := p_query r.1; product_title := r.2;
            gain := g; esci_label := p_esci_label r.1 |}
  | None => Raise (KeyError "esci_label2gain")
  end.

(** [main] from "1. Load data" to the two frames [df_train], [df_dev]. *)
Definition dataset_builder (args : Args) (df : list Pair) (cat : list Product)
  : result (list Row * list Row) :=
  let df := joined_frame (locale args) df cat in
  let list_query_id := unique ((λ r, p_query_id r.1) <$> df) in
  dev_size ← true_div (n_dev_queries args) (length list_query_id);
  ids ← train_test_split list_query_id dev_size (random_state args);
  let list_query_id_train := ids.1 in
  let list_query_id_dev := ids.2 in
  df ← mapM_result with_gain df;
  let df_train := filter (λ r, query_id r ∈ list_query_id_train) df in
  let df_dev := filter (λ r, query_id r ∈ list_query_id_dev) df in
  Ok (df_train, df_dev).

End Builder.

(** *** The trainer *)

Record InputExample := { texts : value * value; label : Q }.

(** An entry of [dev_samples]. *)
Record DevSample := {
  ds_query : str;
  positive : gset str;
  negative : gset str
}.

(** The calls into the model library that [main] makes, in order. *)
Inductive event :=
| ModelFit (model_name : string) (train_samples : list InputExample) (output_path : string)
| ModelSave (path : string)
| FinalEvaluation.

(** A run: the library calls made so far and the outcome. *)
Definition run (A : Type) : Type := list event * result A.

#[global] Instance run_ret : MRet run := λ A a, ([], Ok a).
#[global] Instance run_bind : MBind run :=
  λ A B f m,
    match m with
    | (evs, Ok a) => let r := f a in (evs ++ r.1, r.2)
    | (evs, Raise e) => (evs, Raise e)
    end.

Definition lift {A} (r : result A) : run A := ([], r).
Definition call (ev : event) : run unit := ([ev], Ok tt).

Definition to_frame (df : list Row) : DataFrame :=
  {| columns := ["query_id"; "query"; "product_title"; "gain"; "esci_label"];
     records := (λ r, [VInt (query_id r); VStr (query r); VStr (product_title r);
                       VFloat (gain r); VStr (esci_label r)]) <$> df |}.

(** [df[k1, k2, k3, k4]]: the tuple is looked up as one column label. *)
Definition getitem_tuple (df : DataFrame) (key : list string) : result DataFrame :=
  Raise (KeyError (String.concat ", " key)).

(** [pd.concat([a, b], ignore_index=True, sort=False)]: the rows of both
    frames over the columns of [a] followed by the new columns of [b]. *)
Definition concat (a b : DataFrame) : DataFrame :=
  let cols := columns a ++ filter (λ c, c ∉ columns a) (columns b) in
  let widen (df : DataFrame) (r : list value) :=
    (λ c, match index_of c (columns df) with
          | Some j => default VNaN (r !! j)
          | None => VNaN
          end) <$> cols in
  {| columns := cols; records := (widen a <$> records a) ++ (widen b <$> records b) |}.

(** [InputExample(texts=[row[col_query], row[col_product_title]],
    label=float(row[col_gain]))] *)
Definition input_example (df : DataFrame) (i : nat) : result InputExample :=
  q ← iloc_get df i "query";
  t ← iloc_get df i "product_title";
  g ← iloc_get df i "gain";
  match g with
  | VFloat g => Ok {| texts := (q, t); label := g |}
  | VInt z => Ok {| texts := (q, t); label := inject_Z z |}
  | _ => Raise (ValueError "could not convert to float")
  end.

Definition train_samples_of (df : DataFrame) : result (list InputExample) :=
  mapM_result (input_example df) (seq 0 (length (records df))).

(** [DataLoader(train_samples, shuffle=True, batch_size=..., drop_last=True)]:
    the checks of the constructor.  The random sampler refuses an empty data
    set, then the batch sampler a batch size that is not positive. *)
Definition data_loader (train_samples : list InputExample) (batch_size : Z) : result unit :=
  match train_samples with
  | [] => Raise (ValueError "num_samples should be a positive integer value")
  | _ :: _ =>
      if decide (batch_size ≤ 0)%Z
      then Raise (ValueError "batch_size should be a positive integer value")
      else Ok tt
  end.

(** [row[col_gain] > 0] *)
Definition gain_positive (g : Q) : bool := negb (Qle_bool g 0).

(** One iteration of the loop that fills [query2id] and [dev_samples]. *)
Definition dev_step (st : gmap str nat * gmap nat DevSample) (row : Row)
  : gmap str nat * gmap nat DevSample :=
  let query2id := st.1 in
  let dev_samples := st.2 in
  let qid := default (size query2id) (query2id !! query row) in
  let query2id :=
    match query2id !! query row with
    | Some _ => query2id
    | None => <[query row := qid]> query2id
    end in
  let dev_samples :=
    match dev_samples !! qid with
    | Some _ => dev_samples
    | None => <[qid := {| ds_query := query row; positive := ∅; negative := ∅ |}]> dev_samples
    end in
  let dev_samples :=
    if gain_positive (gain row)
    then alter (λ s, {| ds_query := ds_query s;
                        positive := positive s ∪ {[product_title row]};
                        negative := negative s |}) qid dev_samples
    else alter (λ s, {| ds_query := ds_query s;
                        positive := positive s;
                        negative := negative s ∪ {[product_title row]} |}) qid dev_samples in
  (query2id, dev_samples).

Definition dev_samples_of (df_dev : list Row) : gmap nat DevSample :=
  (fold_left dev_step df_dev (∅, ∅)).2.

Section Main.
Variable U : Unicode.
Variable shuffled : Z → list Z → list Z.
Variable float_ceil_mul : Q → nat → nat.
Variable random_draw : nat → nat.
Variable synonym_augment : nat → value → value.
Variable shuffle_merged : DataFrame → DataFrame → option exn.

(** The training frame of locale "us": normalized texts, then the augmented
    rows appended. *)
Definition augmented_training_frame (df_train : list Row) : result DataFrame :=
  let df_train :=
    (λ x, {| query_id := query_id x; query := query x;
             product_title := preprocess U (product_title x);
             gain := gain x; esci_label := esci_label x |}) <$> df_train in
  let df_train :=
    (λ x, {| query_id := query_id x; query := preprocess U (query x);
             product_title := product_title x;
             gain := gain x; esci_label := esci_label x |}) <$> df_train in
  augmented_text ← Augmentation.augment_text random_draw synonym_augment shuffle_merged
                      (to_frame df_train) Augmentation.default_samples;
  df_train ← getitem_tuple (to_frame df_train) ["query"; "product_title"; "esci_label"; "gain"];
  Ok (concat df_train augmented_text).

Definition main (args : Args) (df : list Pair) (df_product_catalogue : list Product) : run unit :=
  splits ← lift (dataset_builder shuffled float_ceil_mul args df df_product_catalogue);
  let df_dev := splits.2 in
  df_train ← lift (match locale args with
                   | us => augmented_training_frame splits.1
                   | _ => Ok (to_frame splits.1)
                   end);
  train_samples ← lift (train_samples_of df_train);
  _ ← lift (data_loader train_samples (train_batch_size args));
  match locale args with
  | us =>
      let dev_samples := dev_samples_of df_dev in
      _ ← call (ModelFit "cross-encoder/ms-marco-MiniLM-L-12-v2" train_samples
                  (model_save_path args +:+ "_tmp"));
      _ ← call (ModelSave (model_save_path args));
      _ ← lift (Raise (NameError "test_samples") : result unit);
      call FinalEvaluation
  | _ =>
      _ ← call (ModelFit "sentence-transformers/multi-qa-mpnet-base-dot-v1" train_samples
                  (model_save_path args));
      call FinalEvaluation
  end.

End Main.

End Train.

(** ** Sample inputs *)

Module Samples.
Import Py Train.

(** Stand-ins for the third-party calls: the shuffle reverses, the ceiling
    is that of the exact product, the draws count up, the synonym augmenter
    returns its text.  The last statement of the augmenter is taken as
    pandas 1.x runs it: [random.shuffle] exchanges [x[i]] and [x[j]] by
    integer key, which on a frame is a column lookup, so that it raises
    [KeyError] as soon as the merged frame has two rows; the key is the
    first number drawn, here 0. *)
Definition rev_shuffle (seed : Z) (l : list Z) : list Z := rev l.
Definition exact_ceil_mul (q : Q) (n : nat) : nat :=
  Z.to_nat (Qceiling (q * inject_Z (Z.of_nat n))).
Definition count_up (k : nat) : nat := k.
Definition no_synonyms (k : nat) (v : value) : value := v.
Definition shuffle_by_key (df new : DataFrame) : option exn :=
  if decide (length (records df) + length (records new) ≤ 1) then None
  else Some (KeyError "0").

Definition mk_pair (qid : Z) (q loc label pid : string) : Pair :=
  {| p_query_id := qid; p_query := lit q; p_query_locale := lit loc;
     p_esci_label := lit label; p_product_id := lit pid |}.

Definition mk_product (pid : string) (title : option string) (loc : string) : Product :=
  {| c_product_id := lit pid; c_product_title := lit <$> title; c_product_locale := lit loc |}.

(** Three queries of locale "us" with two products each, one pair of
    another locale, one pair whose product is not in the catalogue and one
    whose catalogue row has no title. *)
Definition sample_pairs : list Pair :=
  [ mk_pair 1 "Blue shirt" "us" "exact" "P1";
    mk_pair 1 "Blue shirt" "us" "irrelevant" "P2";
    mk_pair 2 "10 gal tank" "us" "substitute" "P3";
    mk_pair 7 "camisa azul" "es" "exact" "P1";
    mk_pair 2 "10 gal tank" "us" "complement" "P2";
    mk_pair 3 "drill 5in." "us" "exact" "P4";
    mk_pair 3 "drill 5in." "us" "irrelevant" "P1";
    mk_pair 4 "lamp" "us" "exact" "P9";
    mk_pair 5 "desk" "us" "exact" "P5" ].

Definition sample_catalogue : list Product :=
  [ mk_product "P1" (Some "Blue Shirt, XL") "us";
    mk_product "P2" (Some "Garden hose 50ft") "us";
    mk_product "P3" (Some "Fish tank 10 gal") "us";
    mk_product "P4" (Some "Cordless drill") "us";
    mk_product "P5" None "us";
    mk_product "P1" (Some "Camisa azul") "es" ].

Definition sample_args (loc : Locale) (n_dev : Z) : Args :=
  {| locale := loc; model_save_path := "model"; random_state := 42;
     n_dev_queries := n_dev; train_batch_size := 32 |}.

Definition mk_row (qid : Z) (q title : string) (g : Q) (label : string) : Row :=
  {| query_id := qid; query := lit q; product_title := lit title; gain := g;
     esci_label := lit label |}.

Definition sample_train : list Row :=
  [ mk_row 1 "Blue shirt" "Blue Shirt, XL" 1 "exact";
    mk_row 1 "Blue shirt" "Garden hose 50ft" 0 "irrelevant";
    mk_row 2 "10 gal tank" "Fish tank 10 gal" (1 # 10) "substitute";
    mk_row 2 "10 gal tank" "Garden hose 50ft" (1 # 100) "complement" ].

Definition sample_dev : list Row :=
  [ mk_row 3 "drill 5in." "Cordless drill" 1 "exact";
    mk_row 3 "drill 5in." "Blue Shirt, XL" 0 "irrelevant" ].

(** A frame with a [target] column whose only row is an irrelevant pair. *)
Definition irrelevant_frame : DataFrame :=
  {| columns := ["query"; "esci_label"; "product_title"; "target"];
     records := [[VStr (lit "cheap phone"); VStr (lit "irrelevant");
                  VStr (lit "Garden hose 50ft"); VInt 0]] |}.

End Samples.

(** ** Dev rows grouped by query text *)

Module Grouping.
Import Py Train.

(** The effect of one row on the entry of its query: its title joins the
    positive set when the gain is above zero, the negative set otherwise. *)
Definition add_title (row : Row) (s : DevSample) : DevSample :=
  if gain_positive (gain row)
  then {| ds_query := ds_query s; positive := positive s ∪ {[product_title row]};
          negative := negative s |}
  else {| ds_query := ds_query s; positive := positive s;
          negative := negative s ∪ {[product_title row]} |}.

(** The entry of the query text [q] computed from the rows at once: the
    titles of the rows with that text, by the sign of the gain. *)
Definition entry (rows : list Row) (q : str) : DevSample :=
  {| ds_query := q;
     positive := list_to_set (product_title <$>
                   filter (λ r, query r = q ∧ gain_positive (gain r) = true) rows);
     negative := list_to_set (product_title <$>
                   filter (λ r, query r = q ∧ gain_positive (gain r) = false) rows) |}.

End Grouping.

(** ** Properties of the text normalizer *)

Module Normalizer.
Import Py Train.

(** *** Auxiliary notions *)

(** The fixed table of unit abbreviations and their canonical forms. *)
Definition unit_table : list (list str * str) :=
  [ ([lit "gal"; lit "gals"; lit "galon"], lit "gallon");
    ([lit "ft"; lit "fts"; lit "feets"; lit "foot"; lit "foots"], lit "feet");
    ([lit "squares"; lit "sq"], lit "square");
    ([lit "lb"; lit "lbs"; lit "pounds"], lit "pound");
    ([lit "oz"; lit "ozs"; lit "ounces"; lit "ounc"], lit "ounce");
    ([lit "yds"; lit "yd"; lit "yards"], lit "yard") ].

(** The canonical form of a token: the table's entry for an abbreviation,
    the token itself otherwise. *)
Definition canonical_unit (w : str) : str :=
  match List.find (λ row, bool_decide (w ∈ row.1)) unit_table with
  | Some row => row.2
  | None => w
  end.

Definition is_abbreviation (w : str) : bool :=
  existsb (λ row, bool_decide (w ∈ row.1)) unit_table.

(** An excerpt of the Unicode character database: U+0130 (capital I with dot
    above) is a letter whose lower case is the two characters U+0069 U+0307;
    the combining dot U+0307 is neither alphanumeric nor whitespace.  The
    excerpt has no other row: it serves for texts made of ASCII characters
    and these two code points. *)
Definition ucd_excerpt : Unicode := {|
  uni_isalnum c := (c =? 304)%N;
  uni_lower c := if (c =? 304)%N then [105; 775]%N else [c];
  uni_isspace c := false
|}.

(** The text handed to [standardize_units] is a sequence of items: a run of
    letters between its two own spaces, or a single other character. *)
Inductive item := Run (w : str) | Other (c : N).

Definition render_item (it : item) : str :=
  match it with
  | Run w => SPACE :: w ++ [SPACE]
  | Other c => [c]
  end.

Fixpoint render (its : list item) : str :=
  match its with
  | [] => []
  | it :: its' => render_item it ++ render its'
  end.

Definition letters (w : str) : Prop := Forall (λ c, is_letter c = true) w.

Definition wf_item (it : item) : Prop :=
  match it with
  | Run w => w ≠ [] ∧ letters w
  | Other c => is_letter c = false
  end.

(** One substitution of [standardize_units], seen on items. *)
Definition subst_item (abbrs : list str) (r : str) (it : item) : item :=
  match it with
  | Run w => Run (if bool_decide (w ∈ abbrs) then r else w)
  | Other c => Other c
  end.

Definition pad (t : str) : str := SPACE :: t ++ [SPACE].

Definition emit (cur : str) : list str :=
  match cur with [] => [] | _ => [cur] end.

(** The tokens [split] finds in a rendered sequence of items. *)
Fixpoint toks (U : Unicode) (cur : str) (its : list item) : list str :=
  match its with
  | [] => emit cur
  | Run w :: its' => emit cur ++ w :: toks U [] its'
  | Other c :: its' =>
      if is_space U c then emit cur ++ toks U [] its' else toks U (cur ++ [c]) its'
  end.

(** All six substitutions of [standardize_units], seen on one item. *)
Definition canon_item (it : item) : item :=
  fold_left (λ it row, subst_item row.1 row.2 it) unit_table it.

Definition nonletters (w : str) : Prop := Forall (λ c, is_letter c = false) w.

(** Lower-case letters, digits and the underscore: the characters of a
    normalized ASCII token. *)
Definition plain (c : N) : bool := in_range 97 122 c || is_digit c || (c =? 95)%N.

(** A token of a normalized ASCII text: non-empty, of plain characters, and
    either all letters or without any letter. *)
Definition tok_ok (t : str) : Prop :=
  t ≠ [] ∧ Forall (λ c, plain c = true) t ∧ (letters t ∨ nonletters t).

Definition plain_or_space (c : N) : Prop := plain c = true ∨ c = SPACE.

(** A character that the normalizer reads back as it wrote it, for any
    table: a word character that is not whitespace and is its own lower
    case. *)
Definition steady (U : Unicode) (c : N) : Prop :=
  is_word U c = true ∧ is_space U c = false ∧ lower_char U c = [c].

(** A token of a normalized text, for any table. *)
Definition tok_steady (U : Unicode) (t : str) : Prop :=
  t ≠ [] ∧ Forall (steady U) t ∧ (letters t ∨ nonletters t).

(** The lower case of a word character holds word characters only, each of
    them its own lower case. *)
Definition lowers_to_words (U : Unicode) (c : N) : Prop :=
  is_word U c = true →
  Forall (λ d, is_word U d = true ∧ lower_char U d = [d]) (lower_char U c).

(** A second excerpt of the Unicode character database: the letters
    U+00C9 and U+00E9 (E with acute accent, capital and small); it serves
    for texts made of ASCII characters and these two letters. *)
Definition ucd_accents : Unicode := {|
  uni_isalnum c := (c =? 201)%N || (c =? 233)%N;
  uni_lower c := if (c =? 201)%N then [233%N] else [c];
  uni_isspace c := false
|}.

(** What may follow a space that closes a run or stands alone: never a
    letter. *)
Definition no_letter_ahead (s : str) : Prop :=
  match s with [] => True | d :: _ => is_letter d = false end.

(** *** Character classes *)

Ltac class_solve :=
  unfold plain, is_word, lower_char, is_space, is_letter, is_digit, is_ascii,
    in_range, SPACE in *;
  repeat match goal with
  | |- context [N.leb ?a ?b] => destruct (N.leb_spec a b)
  | |- context [N.ltb ?a ?b] => destruct (N.ltb_spec a b)
  | |- context [N.eqb ?a ?b] => destruct (N.eqb_spec a b)
  | H : context [N.leb ?a ?b] |- _ => destruct (N.leb_spec a b)
  | H : context [N.ltb ?a ?b] |- _ => destruct (N.ltb_spec a b)
  | H : context [N.eqb ?a ?b] |- _ => destruct (N.eqb_spec a b)
  end; simpl in *; try congruence; try lia; try (f_equal; lia).

Lemma letter_not_space c : is_letter c = true → c ≠ SPACE.
Proof. intros H ->. discriminate H. Qed.

Lemma letter_is_space U c : is_letter c = true → is_space U c = false.
Proof. intros H. class_solve. Qed.

Lemma space_is_space U : is_space U SPACE = true.
Proof. reflexivity. Qed.

Lemma plain_word U c : plain c = true → is_word U c = true.
Proof. intros H. class_solve. Qed.

Lemma plain_lower U c : plain c = true → lower_char U c = [c].
Proof. intros H. class_solve. Qed.

Lemma plain_not_space U c : plain c = true → is_space U c = false.
Proof. intros H. class_solve. Qed.

Lemma plain_not_dot c : plain c = true → c ≠ 46%N.
Proof. intros H ->. discriminate H. Qed.

Lemma letter_plain c : plain c = true → is_letter c = true ∨ is_letter c = false.
Proof. destruct (is_letter c); auto. Qed.

Lemma lower_plain U c :
  is_ascii c = true → is_word U c = true → Forall (λ d, plain d = true) (lower_char U c).
Proof. intros H1 H2. unfold lower_char. rewrite H1. constructor; [|constructor]. class_solve. Qed.

(** *** The substitutions on a sequence of items *)

Lemma sub_alt_go_skip pats repl a b :
  sub_alt_go pats repl (length a) (a ++ b) = sub_alt_go pats repl 0 b.
Proof. induction a as [|c a IH]; simpl; [by destruct b|done]. Qed.

Lemma match_alt_none pats s :
  (∀ p, p ∈ pats → starts_with p s = false) → match_alt pats s = None.
Proof.
  unfold match_alt. induction pats as [|p pats IH]; intros H; simpl; [done|].
  rewrite (H p) by left. apply IH. intros q Hq. apply H. by right.
Qed.

Lemma sub_alt_go_step pats repl c s :
  sub_alt_go pats repl 0 (c :: s) =
    match match_alt pats (c :: s) with
    | Some p => repl ++ sub_alt_go pats repl (length p - 1) s
    | None => c :: sub_alt_go pats repl 0 s
    end.
Proof. reflexivity. Qed.

Lemma render_app its1 its2 : render (its1 ++ its2) = render its1 ++ render its2.
Proof. induction its1 as [|it its1 IH]; simpl; [done|]. by rewrite IH, app_assoc. Qed.

Lemma render_head its : Forall wf_item its → no_letter_ahead (render its).
Proof. destruct 1 as [|[w|c] its Hit _]; simpl; done. Qed.

Lemma starts_with_term t w s :
  letters t → letters w →
  starts_with (t ++ [SPACE]) (w ++ SPACE :: s) = bool_decide (t = w).
Proof.
  intros Ht. revert w.
  induction Ht as [|a t Ha Ht IH]; intros w Hw.
  - destruct Hw as [|b w Hb Hw]; cbn [starts_with app].
    + by rewrite N.eqb_refl.
    + rewrite bool_decide_eq_false_2 by done.
      destruct (N.eqb_spec SPACE b) as [<-|]; [discriminate Hb|done].
  - destruct Hw as [|b w Hb Hw]; cbn [starts_with app].
    + rewrite bool_decide_eq_false_2 by done.
      destruct (N.eqb_spec a SPACE) as [->|]; [discriminate Ha|done].
    + rewrite IH by done. destruct (N.eqb_spec a b) as [->|Hne]; simpl.
      * apply bool_decide_ext. split; [by intros ->|by intros [=]].
      * rewrite bool_decide_eq_false_2; [done|]. intros [=]. done.
Qed.

Section Substitution.
Variables (abbrs : list str) (r : str).
Hypothesis abbrs_letters : Forall (λ t, t ≠ [] ∧ letters t) abbrs.

Local Abbreviation pats := (pad <$> abbrs).

Lemma no_match_other c s : c ≠ SPACE → match_alt pats (c :: s) = None.
Proof.
  intros Hc. apply match_alt_none. intros p Hp.
  apply list_elem_of_fmap in Hp as (t & -> & _).
  unfold pad. cbn [starts_with]. destruct (N.eqb_spec SPACE c); [congruence|done].
Qed.

Lemma no_match_space s : no_letter_ahead s → match_alt pats (SPACE :: s) = None.
Proof.
  intros Hs. apply match_alt_none. intros p Hp.
  apply list_elem_of_fmap in Hp as (t & -> & Ht).
  eapply Forall_forall in abbrs_letters as [Hne Hl]; [|done].
  destruct t as [|a t]; [done|]. apply Forall_cons in Hl as [Ha _].
  unfold pad. cbn [starts_with app]. rewrite N.eqb_refl. destruct s as [|d s]; [done|].
  simpl in Hs. destruct (N.eqb_spec a d) as [->|]; [congruence|done].
Qed.

(** At a run, the alternation matches exactly when the run is one of the
    abbreviations, and then with the run's own padded form. *)
Lemma match_alt_run w s :
  letters w →
  match_alt pats (SPACE :: w ++ SPACE :: s) =
    if bool_decide (w ∈ abbrs) then Some (pad w) else None.
Proof.
  intros Hw. unfold match_alt.
  induction abbrs as [|t ts IH]; cbn [fmap list_fmap List.find].
  - rewrite bool_decide_eq_false_2; [done|]. apply not_elem_of_nil.
  - apply Forall_cons in abbrs_letters as [[_ Ht] Hts].
    unfold pad at 1. cbn [starts_with]. rewrite N.eqb_refl, starts_with_term by done.
    cbn [andb]. destruct (decide (t = w)) as [->|Htw].
    + rewrite (bool_decide_eq_true_2 (w = w)) by done.
      rewrite bool_decide_eq_true_2; [done|by left].
    + rewrite (bool_decide_eq_false_2 (t = w)) by done. rewrite IH by done.
      apply (f_equal (λ b : bool, if b then Some (pad w) else None)).
      apply bool_decide_ext. rewrite elem_of_cons.
      split; [by right|]. intros [->|?]; done.
Qed.

Lemma sub_alt_letters w s :
  letters w →
  sub_alt_go pats (pad r) 0 (w ++ s) = w ++ sub_alt_go pats (pad r) 0 s.
Proof.
  induction 1 as [|c w Hc Hw IH]; [done|].
  cbn [app]. rewrite sub_alt_go_step, no_match_other by (by apply letter_not_space).
  by rewrite IH.
Qed.

Lemma sub_alt_render its :
  Forall wf_item its →
  re_sub_alt pats (pad r) (render its) = render (subst_item abbrs r <$> its).
Proof.
  unfold re_sub_alt. induction 1 as [|[w|c] its Hit Hits IH]; [done| |].
  - destruct Hit as [Hne Hw]. pose proof (render_head _ Hits) as Hhd.
    cbn [fmap list_fmap subst_item render].
    change (render_item (Run w)) with ([SPACE] ++ w ++ [SPACE]).
    rewrite <- !app_assoc. cbn [app].
    rewrite sub_alt_go_step, match_alt_run by done. case_bool_decide.
    + change (render_item (Run r)) with (pad r). f_equal.
      replace (length (pad w) - 1) with (length (w ++ [SPACE])).
      2:{ unfold pad. cbn [length]. lia. }
      change (w ++ SPACE :: render its) with (w ++ [SPACE] ++ render its).
      rewrite app_assoc, sub_alt_go_skip. apply IH.
    + change (render_item (Run w)) with ([SPACE] ++ w ++ [SPACE]).
      rewrite <- !app_assoc. cbn [app]. f_equal.
      rewrite sub_alt_letters by done. f_equal.
      rewrite sub_alt_go_step, no_match_space by done. f_equal. apply IH.
  - pose proof (render_head _ Hits) as Hhd.
    cbn [fmap list_fmap subst_item render render_item app].
    rewrite sub_alt_go_step.
    destruct (decide (c = SPACE)) as [->|Hc].
    + rewrite no_match_space by done. f_equal. apply IH.
    + rewrite no_match_other by done. f_equal. apply IH.
Qed.

Lemma subst_item_wf it :
  r ≠ [] → letters r → wf_item it → wf_item (subst_item abbrs r it).
Proof. intros ?? H. destruct it as [w|c]; simpl; [|done]. by case_bool_decide. Qed.

End Substitution.

(** *** Tokens of a rendered sequence *)

Lemma split_go_app U cur w s :
  Forall (λ c, is_space U c = false) w →
  split_go U cur (w ++ s) = split_go U (cur ++ w) s.
Proof.
  intros Hw. revert cur. induction Hw as [|c w Hc Hw IH]; intros cur.
  - by rewrite app_nil_r.
  - cbn [app split_go]. rewrite Hc, IH. by rewrite <- app_assoc.
Qed.

Lemma split_go_space U cur s :
  split_go U cur (SPACE :: s) = emit cur ++ split_go U [] s.
Proof. cbn [split_go]. rewrite space_is_space. by destruct cur. Qed.

Lemma split_go_nil U cur : split_go U cur [] = emit cur.
Proof. done. Qed.

Lemma letters_no_space U w : letters w → Forall (λ c, is_space U c = false) w.
Proof. intros H. eapply Forall_impl; [exact H|]. intros c. apply letter_is_space. Qed.

Lemma split_render U cur its :
  Forall wf_item its → split_go U cur (render its) = toks U cur its.
Proof.
  intros Hits. revert cur. induction Hits as [|[w|c] its Hit Hits IH]; intros cur; [done| |].
  - destruct Hit as [Hne Hw]. cbn [render toks].
    change (render_item (Run w)) with ([SPACE] ++ w ++ [SPACE]).
    rewrite <- !app_assoc. cbn [app]. rewrite split_go_space. f_equal.
    rewrite split_go_app by (by apply letters_no_space).
    rewrite split_go_space, IH. destruct w; done.
  - cbn [render render_item toks app split_go]. destruct (is_space U c).
    + rewrite IH. by destruct cur.
    + apply IH.
Qed.

Lemma toks_snoc_space U cur its :
  toks U cur (its ++ [Other SPACE]) = toks U cur its.
Proof.
  revert cur. induction its as [|[w|c] its IH]; intros cur; cbn [app toks].
  - rewrite space_is_space. by rewrite app_nil_r.
  - by rewrite IH.
  - destruct (is_space U c); by rewrite IH.
Qed.

(** The text [preprocess] hands to [standardize_units] renders a well-formed
    sequence of items. *)
Lemma spaced_render_aux s :
  (∃ its, Forall wf_item its ∧ space_letter_runs false s = render its) ∧
  (∀ w, w ≠ [] → letters w →
     ∃ its, Forall wf_item its ∧ SPACE :: w ++ space_letter_runs true s = render its).
Proof.
  induction s as [|c s [IHf IHt]].
  - split; [by exists []|]. intros w Hne Hw. exists [Run w]. split; [by repeat constructor|].
    cbn [render]. by rewrite app_nil_r.
  - split.
    + cbn [space_letter_runs]. destruct (is_letter c) eqn:Hc.
      * apply (IHt [c]); [done|by repeat constructor].
      * destruct IHf as (its & Hits & ->). exists (Other c :: its). by split; [constructor|].
    + intros w Hne Hw. cbn [space_letter_runs]. destruct (is_letter c) eqn:Hc.
      * destruct (IHt (w ++ [c])) as (its & Hits & Heq).
        { by destruct w. } { apply Forall_app. by split; [|repeat constructor]. }
        exists its. split; [done|]. by rewrite <- Heq, <- app_assoc.
      * destruct IHf as (its & Hits & ->). exists (Run w :: Other c :: its).
        split; [by repeat constructor|]. cbn [render render_item app].
        by rewrite <- app_assoc.
Qed.

Lemma spaced_render s :
  ∃ its, Forall wf_item its ∧ space_letter_runs false s = render its.
Proof. apply spaced_render_aux. Qed.

(** The abbreviations and canonical forms of the table are words of
    letters. *)
Lemma unit_table_letters :
  Forall (λ row, Forall (λ t, t ≠ [] ∧ letters t) row.1 ∧ row.2 ≠ [] ∧ letters row.2) unit_table.
Proof.
  unfold letters.
  repeat (first [apply Forall_nil_2 | apply Forall_cons_2 | split | done | reflexivity]).
Qed.

Lemma fold_sub_render (table : list (list str * str)) its :
  Forall (λ row, Forall (λ t, t ≠ [] ∧ letters t) row.1 ∧ row.2 ≠ [] ∧ letters row.2) table →
  Forall wf_item its →
  fold_left (λ text row, re_sub_alt (pad <$> row.1) (pad row.2) text) table (render its) =
  render ((λ it, fold_left (λ it row, subst_item row.1 row.2 it) table it) <$> its).
Proof.
  intros Ht. revert its. induction Ht as [|[abbrs r] table (Habbrs & Hne & Hr) Ht IH]; intros its Hits.
  - cbn [fold_left]. by rewrite list_fmap_id.
  - cbn [fold_left fst snd]. rewrite sub_alt_render by done.
    rewrite IH.
    + by rewrite <- list_fmap_compose.
    + apply Forall_fmap. eapply Forall_impl; [done|]. intros it. by apply subst_item_wf.
Qed.

Lemma standardize_units_fold text :
  standardize_units text =
  fold_left (λ text row, re_sub_alt (pad <$> row.1) (pad row.2) text) unit_table
    ([SPACE] ++ text ++ [SPACE]).
Proof. reflexivity. Qed.

Lemma standardize_units_render its :
  Forall wf_item its →
  standardize_units (render its) = render (Other SPACE :: (canon_item <$> its) ++ [Other SPACE]).
Proof.
  intros Hits. rewrite standardize_units_fold.
  change ([SPACE] ++ render its ++ [SPACE]) with (render [Other SPACE] ++ render its ++ render [Other SPACE]).
  rewrite <- !render_app, fold_sub_render.
  - rewrite !fmap_app. done.
  - apply unit_table_letters.
  - apply Forall_app. split; [by repeat constructor|]. apply Forall_app. by split; [|repeat constructor].
Qed.

(** *** Canonical units on tokens *)

Lemma canon_item_other c : canon_item (Other c) = Other c.
Proof. reflexivity. Qed.

Lemma canon_item_run w : canon_item (Run w) = Run (canonical_unit w).
Proof.
  unfold canon_item, canonical_unit, unit_table.
  cbn [fold_left subst_item List.find fst snd].
  repeat match goal with
  | |- context [bool_decide (w ∈ ?A)] =>
      destruct (decide (w ∈ A));
      [ rewrite !(bool_decide_eq_true_2 (w ∈ A)) by done; vm_compute; reflexivity
      | rewrite !(bool_decide_eq_false_2 (w ∈ A)) by done ]
  end.
  reflexivity.
Qed.

Lemma canonical_unit_other t :
  (∀ row, row ∈ unit_table → t ∉ row.1) → canonical_unit t = t.
Proof.
  intros H. unfold canonical_unit.
  destruct (List.find _ _) as [row|] eqn:Hfind; [|done].
  apply find_some in Hfind as [Hin Ht]. apply list_elem_of_In in Hin.
  apply bool_decide_eq_true in Ht. by destruct (H row Hin).
Qed.

Lemma abbreviation_letters t row : row ∈ unit_table → t ∈ row.1 → t ≠ [] ∧ letters t.
Proof.
  intros Hrow Ht. pose proof unit_table_letters as H.
  eapply Forall_forall in H as [H _]; [|done]. by eapply Forall_forall in H.
Qed.

Lemma canonical_unit_nonletters t : t ≠ [] → nonletters t → canonical_unit t = t.
Proof.
  intros Hne Ht. apply canonical_unit_other. intros row Hrow Hin.
  destruct (abbreviation_letters _ _ Hrow Hin) as [_ Hl].
  destruct t as [|c t]; [done|].
  apply Forall_cons in Ht as [Hc _]. apply Forall_cons in Hl as [Hc' _]. congruence.
Qed.

Lemma canonical_unit_letters t : t ≠ [] → letters t → canonical_unit t ≠ [] ∧ letters (canonical_unit t).
Proof.
  intros Hne Ht. unfold canonical_unit.
  destruct (List.find _ _) as [row|] eqn:Hfind; [|done].
  apply find_some in Hfind as [Hin _]. apply list_elem_of_In in Hin.
  pose proof unit_table_letters as H. eapply Forall_forall in H as [_ H]; done.
Qed.

Lemma emit_canonical cur : nonletters cur → canonical_unit <$> emit cur = emit cur.
Proof.
  intros H. destruct cur as [|c cur]; [done|]. cbn [emit fmap list_fmap].
  by rewrite canonical_unit_nonletters.
Qed.

Lemma toks_canon U cur its :
  Forall wf_item its → nonletters cur →
  toks U cur (canon_item <$> its) = canonical_unit <$> toks U cur its.
Proof.
  intros Hits. revert cur. induction Hits as [|[w|c] its Hit Hits IH]; intros cur Hcur.
  - cbn [fmap list_fmap toks]. by rewrite emit_canonical.
  - cbn [fmap list_fmap]. rewrite canon_item_run. cbn [toks].
    rewrite fmap_app, emit_canonical by done. cbn [fmap list_fmap].
    by rewrite IH by constructor.
  - cbn [fmap list_fmap]. rewrite canon_item_other. cbn [toks]. destruct (is_space U c).
    + rewrite fmap_app, emit_canonical by done. by rewrite IH by constructor.
    + apply IH. apply Forall_app. by split; [|repeat constructor].
Qed.

(** [preprocess] in terms of tokens. *)
Lemma preprocess_tokens U x :
  preprocess U x = join (lit " ") (canonical_unit <$> split U (spaced_words U x)).
Proof.
  unfold preprocess. f_equal. unfold spaced_words.
  destruct (spaced_render (join (lit " ") (lower U <$> re_split_W U (replace (lit "in.") (lit " inch ") x))))
    as (its & Hits & ->).
  rewrite standardize_units_render by done. unfold split.
  rewrite !split_render; [|done|].
  - cbn [toks]. rewrite space_is_space. cbn [emit app].
    rewrite toks_snoc_space. by apply toks_canon; [|constructor].
  - constructor; [done|]. apply Forall_app. split; [|by repeat constructor].
    apply Forall_fmap. eapply Forall_impl; [done|]. intros [w|c] Hw; [|done].
    unfold compose. rewrite canon_item_run. destruct Hw. by apply canonical_unit_letters.
Qed.

(** *** Shape of the tokens *)

Lemma split_go_chars U (P : N → Prop) cur s :
  Forall P cur → Forall P s → Forall (Forall P) (split_go U cur s).
Proof.
  intros Hcur Hs. revert cur Hcur. induction Hs as [|c s Hc Hs IH]; intros cur Hcur.
  - cbn [split_go]. destruct cur; [constructor|by constructor].
  - cbn [split_go]. destruct (is_space U c).
    + destruct cur; [by apply IH|]. constructor; [done|by apply IH].
    + apply IH. apply Forall_app. by split; [|repeat constructor].
Qed.

Lemma split_go_shape U cur s :
  Forall (λ c, is_space U c = false) cur →
  Forall (λ t, t ≠ [] ∧ Forall (λ c, is_space U c = false) t) (split_go U cur s).
Proof.
  revert cur. induction s as [|c s IH]; intros cur Hcur.
  - cbn [split_go]. destruct cur; [constructor|by constructor].
  - cbn [split_go]. destruct (is_space U c) eqn:Hc.
    + destruct cur; [by apply IH|]. constructor; [done|by apply IH].
    + apply IH. apply Forall_app. by split; [|repeat constructor].
Qed.

Lemma split_join U ts :
  Forall (λ t, t ≠ [] ∧ Forall (λ c, is_space U c = false) t) ts →
  split U (join (lit " ") ts) = ts.
Proof.
  unfold split. induction 1 as [|t ts [Hne Ht] Hts IH]; [done|].
  destruct ts as [|t2 ts].
  - cbn [join]. rewrite <- (app_nil_r t) at 1. rewrite split_go_app by done.
    by destruct t.
  - change (join (lit " ") (t :: t2 :: ts)) with (t ++ SPACE :: join (lit " ") (t2 :: ts)).
    rewrite split_go_app, split_go_space, IH by done. by destruct t.
Qed.

Lemma canonical_unit_cases t :
  canonical_unit t = t ∨ ∃ row, row ∈ unit_table ∧ canonical_unit t = row.2.
Proof.
  unfold canonical_unit. destruct (List.find _ _) as [row|] eqn:Hfind; [|by left].
  apply find_some in Hfind as [Hin _]. apply list_elem_of_In in Hin. right. by exists row.
Qed.

Lemma canonical_forms_ok : Forall (λ row, tok_ok row.2) unit_table.
Proof.
  unfold tok_ok, letters.
  repeat (first [apply Forall_nil_2 | apply Forall_cons_2 | split | left | done | reflexivity]).
Qed.

Lemma canonical_unit_ok t : tok_ok t → tok_ok (canonical_unit t).
Proof.
  intros Ht. destruct (canonical_unit_cases t) as [->|(row & Hrow & ->)]; [done|].
  pose proof canonical_forms_ok as H. by eapply Forall_forall in H.
Qed.

Lemma tok_ok_no_space U t :
  tok_ok t → t ≠ [] ∧ Forall (λ c, is_space U c = false) t.
Proof.
  intros (Hne & Hp & _). split; [done|]. eapply Forall_impl; [exact Hp|].
  intros c. apply plain_not_space.
Qed.

Lemma canonical_unit_idemp t : canonical_unit (canonical_unit t) = canonical_unit t.
Proof.
  destruct (canonical_unit_cases t) as [H|(row & Hrow & ->)]; [by rewrite !H|].
  revert row Hrow. apply Forall_forall.
  repeat (first [apply Forall_nil_2 | apply Forall_cons_2 | reflexivity]).
Qed.

Lemma emit_ok cur :
  nonletters cur → Forall (λ c, plain c = true) cur → Forall tok_ok (emit cur).
Proof.
  intros H1 H2. destruct cur as [|c cur]; [constructor|].
  constructor; [|constructor]. split; [done|]. split; [done|by right].
Qed.

(** Tokens of an item sequence all of whose characters are plain or
    spaces. *)
Lemma toks_ok U cur its :
  Forall wf_item its → Forall plain_or_space (render its) →
  nonletters cur → Forall (λ c, plain c = true) cur →
  Forall tok_ok (toks U cur its).
Proof.
  intros Hits. revert cur. induction Hits as [|[w|c] its Hit Hits IH]; intros cur Hr Hcur Hp.
  - by apply emit_ok.
  - destruct Hit as [Hne Hw]. cbn [render render_item] in Hr.
    change (SPACE :: w ++ [SPACE]) with ([SPACE] ++ w ++ [SPACE]) in Hr.
    rewrite !Forall_app in Hr. destruct Hr as [(_ & Hwp & _) Hr].
    cbn [toks]. apply Forall_app. split; [by apply emit_ok|].
    constructor; [|by apply IH; [|constructor|constructor]].
    split; [done|]. split; [|by left].
    apply Forall_forall. intros c Hc.
    assert (is_letter c = true) as Hl by (by eapply Forall_forall in Hw).
    assert (plain_or_space c) as [?| ->] by (by eapply Forall_forall in Hwp); [done|].
    by apply letter_not_space in Hl.
  - cbn [render render_item app] in Hr. apply Forall_cons in Hr as [Hc Hr].
    cbn [toks]. destruct (is_space U c) eqn:Hsp.
    + apply Forall_app. split; [by apply emit_ok|].
      by apply IH; [|constructor|constructor].
    + destruct Hc as [Hc| ->]; [|by rewrite space_is_space in Hsp].
      apply IH; [done| |]; apply Forall_app; by split; [|repeat constructor].
Qed.

(** *** Characters of the text handed to [standardize_units] *)

Lemma sub_alt_go_chars (P : N → Prop) pats new k s :
  Forall P new → Forall P s → Forall P (sub_alt_go pats new k s).
Proof.
  intros Hnew Hs. revert k. induction Hs as [|c s Hc Hs IH]; intros k; [constructor|].
  cbn [sub_alt_go]. destruct k; [|apply IH].
  destruct (match_alt pats (c :: s)); [|by constructor].
  apply Forall_app. by split.
Qed.

Lemma re_split_W_go_chars U (P : N → Prop) cur in_sep s :
  Forall P s → Forall (λ c, P c ∧ is_word U c = true) cur →
  Forall (Forall (λ c, P c ∧ is_word U c = true)) (re_split_W_go U cur in_sep s).
Proof.
  intros Hs. revert cur in_sep. induction Hs as [|c s Hc Hs IH]; intros cur in_sep Hcur.
  - by repeat constructor.
  - cbn [re_split_W_go]. destruct (is_word U c) eqn:Hw.
    + apply IH. apply Forall_app. by split; [|repeat constructor].
    + destruct in_sep; [by apply IH|]. constructor; [done|]. by apply IH.
Qed.

Lemma lower_chars U w :
  Forall (λ c, is_ascii c = true ∧ is_word U c = true) w →
  Forall (λ c, plain c = true) (lower U w).
Proof.
  intros Hw. unfold lower. apply Forall_flat_map.
  eapply Forall_impl; [exact Hw|]. intros c [??]. by apply lower_plain.
Qed.

Lemma join_chars ws :
  Forall (Forall (λ c, plain c = true)) ws → Forall plain_or_space (join (lit " ") ws).
Proof.
  induction 1 as [|w ws Hw Hws IH]; [constructor|].
  assert (Forall plain_or_space w) as Hw'.
  { eapply Forall_impl; [exact Hw|]. intros c ?. by left. }
  destruct ws as [|w2 ws]; [done|].
  change (join (lit " ") (w :: w2 :: ws)) with (w ++ SPACE :: join (lit " ") (w2 :: ws)).
  apply Forall_app. split; [done|]. constructor; [by right|done].
Qed.

Lemma space_letter_runs_chars (Q : N → Prop) b s :
  Q SPACE → Forall Q s → Forall Q (space_letter_runs b s).
Proof.
  intros Hsp Hs. revert b. induction Hs as [|c s Hc Hs IH]; intros b.
  - destruct b; by repeat constructor.
  - cbn [space_letter_runs]. destruct (is_letter c), b; cbn [app]; by repeat constructor.
Qed.

Lemma spaced_words_chars U x :
  Forall (λ c, is_ascii c = true) x → Forall plain_or_space (spaced_words U x).
Proof.
  intros Hx. unfold spaced_words. apply space_letter_runs_chars; [by right|].
  apply join_chars, Forall_fmap. unfold re_split_W.
  eapply Forall_impl; [apply (re_split_W_go_chars U (λ c, is_ascii c = true))|].
  - apply sub_alt_go_chars; [by repeat constructor|done].
  - constructor.
  - intros w Hw. by apply lower_chars.
Qed.

Lemma spaced_tokens_ok U x :
  Forall (λ c, is_ascii c = true) x → Forall tok_ok (split U (spaced_words U x)).
Proof.
  intros Hx. pose proof (spaced_words_chars U x Hx) as Hch. revert Hch.
  unfold spaced_words at 1 2.
  destruct (spaced_render (join (lit " ") (lower U <$> re_split_W U (replace (lit "in.") (lit " inch ") x))))
    as (its & Hits & ->).
  intros Hch. unfold split. rewrite split_render by done. by apply toks_ok; [| |constructor|constructor].
Qed.

(** *** A normalized text is read back unchanged *)

Lemma replace_no_dot new s :
  Forall (λ c, c ≠ 46%N) s → replace (lit "in.") new s = s.
Proof.
  unfold replace. induction 1 as [|c s Hc Hs IH]; [done|].
  rewrite sub_alt_go_step, match_alt_none; [by rewrite IH|].
  intros p ->%list_elem_of_singleton.
  change (lit "in.") with [105; 110; 46]%N.
  destruct s as [|c1 [|c2 s']]; cbn [starts_with]; rewrite ?andb_false_r; try done.
  apply Forall_cons in Hs as [_ [Hc2 _]%Forall_cons].
  destruct (N.eqb_spec 46 c2) as [<-|]; [done|]. cbn [andb]. by rewrite !andb_false_r.
Qed.

Lemma re_split_W_go_app U cur w s :
  Forall (λ c, is_word U c = true) w →
  re_split_W_go U cur false (w ++ s) = re_split_W_go U (cur ++ w) false s.
Proof.
  intros Hw. revert cur. induction Hw as [|c w Hc Hw IH]; intros cur.
  - by rewrite app_nil_r.
  - cbn [app re_split_W_go]. rewrite Hc, IH. by rewrite <- app_assoc.
Qed.

Lemma re_split_W_join U ts :
  ts ≠ [] → Forall tok_ok ts → re_split_W U (join (lit " ") ts) = ts.
Proof.
  intros Hne Hts. unfold re_split_W. induction Hts as [|t ts Ht Hts IH]; [done|].
  assert (Forall (λ c, is_word U c = true) t) as Hw.
  { destruct Ht as (_ & Hp & _). eapply Forall_impl; [exact Hp|]. intros c. apply plain_word. }
  destruct ts as [|t2 ts].
  - cbn [join]. rewrite <- (app_nil_r t) at 1. by rewrite re_split_W_go_app.
  - change (join (lit " ") (t :: t2 :: ts)) with (t ++ SPACE :: join (lit " ") (t2 :: ts)).
    rewrite re_split_W_go_app by done. cbn [app re_split_W_go].
    replace (is_word U SPACE) with false by reflexivity. f_equal.
    trans (re_split_W_go U [] false (join (lit " ") (t2 :: ts))); [|by apply IH].
    apply Forall_cons in Hts as [(Hne2 & Hp2 & _) _].
    destruct t2 as [|c t2]; [done|]. apply Forall_cons in Hp2 as [Hc _].
    destruct ts; cbn [join app re_split_W_go]; by rewrite (plain_word U c Hc).
Qed.

Lemma lower_plain_id U t : Forall (λ c, plain c = true) t → lower U t = t.
Proof.
  unfold lower. induction 1 as [|c t Hc Ht IH]; [done|].
  cbn [flat_map]. by rewrite plain_lower, IH.
Qed.

Lemma space_letter_runs_letters b w s :
  letters w → w ≠ [] →
  space_letter_runs b (w ++ s) = (if b then [] else [SPACE]) ++ w ++ space_letter_runs true s.
Proof.
  intros Hw. revert b. induction Hw as [|c w Hc Hw IH]; intros b Hne; [done|].
  cbn [app space_letter_runs]. rewrite Hc. destruct w as [|c2 w].
  - by destruct b.
  - rewrite IH by done. by destruct b.
Qed.

Lemma space_letter_runs_nonletters w s :
  nonletters w → space_letter_runs false (w ++ s) = w ++ space_letter_runs false s.
Proof.
  induction 1 as [|c w Hc Hw IH]; [done|].
  cbn [app space_letter_runs]. by rewrite Hc, IH.
Qed.

Lemma split_spaced_join U ts :
  Forall tok_ok ts → split U (space_letter_runs false (join (lit " ") ts)) = ts.
Proof.
  unfold split. induction 1 as [|t ts Ht Hts IH]; [done|].
  destruct (tok_ok_no_space U t Ht) as [Hne Hsp]. destruct Ht as (_ & _ & [Hl|Hn]).
  - destruct ts as [|t2 ts].
    + cbn [join]. rewrite <- (app_nil_r t) at 1.
      rewrite space_letter_runs_letters by done. cbn [app space_letter_runs].
      rewrite split_go_space, split_go_app, split_go_space by done. by destruct t.
    + change (join (lit " ") (t :: t2 :: ts)) with (t ++ SPACE :: join (lit " ") (t2 :: ts)).
      rewrite space_letter_runs_letters by done. cbn [app space_letter_runs].
      replace (is_letter SPACE) with false by reflexivity. cbn [app].
      rewrite split_go_space, split_go_app, !split_go_space, IH by done. by destruct t.
  - destruct ts as [|t2 ts].
    + cbn [join]. rewrite <- (app_nil_r t) at 1.
      rewrite space_letter_runs_nonletters by done. cbn [space_letter_runs].
      rewrite split_go_app by done. by destruct t.
    + change (join (lit " ") (t :: t2 :: ts)) with (t ++ SPACE :: join (lit " ") (t2 :: ts)).
      rewrite space_letter_runs_nonletters by done. cbn [space_letter_runs].
      replace (is_letter SPACE) with false by reflexivity. cbn [app].
      rewrite split_go_app, split_go_space, IH by done. by destruct t.
Qed.

Lemma join_no_dot ts : Forall tok_ok ts → Forall (λ c, c ≠ 46%N) (join (lit " ") ts).
Proof.
  intros Hts. eapply Forall_impl; [apply join_chars|].
  - eapply Forall_impl; [exact Hts|]. by intros t (_ & Hp & _).
  - intros c [Hc| ->]; [by apply plain_not_dot|done].
Qed.

Lemma spaced_words_join U ts :
  Forall tok_ok ts → split U (spaced_words U (join (lit " ") ts)) = ts.
Proof.
  intros Hts. unfold spaced_words. rewrite replace_no_dot by (by apply join_no_dot).
  destruct ts as [|t ts]; [done|].
  rewrite re_split_W_join by done.
  replace (lower U <$> t :: ts) with (t :: ts); [by apply split_spaced_join|].
  symmetry. rewrite <- (list_fmap_id (t :: ts)) at 2. apply Forall_fmap_ext.
  eapply Forall_impl; [exact Hts|]. intros w (_ & Hp & _). by apply lower_plain_id.
Qed.

(** *** Properties of the text normalizer *)

Lemma canonical_unit_not_abbreviation t : is_abbreviation (canonical_unit t) = false.
Proof.
  unfold canonical_unit. destruct (List.find _ _) as [row|] eqn:Hfind.
  - apply find_some in Hfind as [Hin _]. apply list_elem_of_In in Hin.
    revert row Hin. apply Forall_forall.
    repeat (first [apply Forall_nil_2 | apply Forall_cons_2 | reflexivity]).
  - unfold is_abbreviation. apply not_true_is_false.
    intros (row & Hin & Ht)%existsb_exists.
    by rewrite (find_none _ _ Hfind row Hin) in Ht.
Qed.


(** Read on an input of plain tokens separated by single spaces: every token
    that is a unit abbreviation is replaced by its canonical form, and
    nothing else changes. *)
Lemma preprocess_plain_tokens U ts :
  Forall tok_ok ts → preprocess U (join (lit " ") ts) = join (lit " ") (canonical_unit <$> ts).
Proof. intros Hts. by rewrite preprocess_tokens, spaced_words_join. Qed.

Lemma preprocess_plain_tokens_witness :
  preprocess ucd_excerpt (join (lit " ") [lit "2"; lit "lbs"; lit "lbs"; lit "_1"; lit "sq"; lit "ft"]) =
  join (lit " ") (canonical_unit <$> [lit "2"; lit "lbs"; lit "lbs"; lit "_1"; lit "sq"; lit "ft"]).
Proof.
  apply preprocess_plain_tokens. unfold tok_ok, letters, nonletters.
  repeat (first [apply Forall_nil_2 | apply Forall_cons_2 | split | done | reflexivity
                | (left; by repeat constructor) | (right; by repeat constructor)]).
Defined.

(** On a text of ASCII characters the normalizer is idempotent:
    normalizing a normalized text changes nothing. *)
Theorem preprocess_idempotent_on_ascii U x :
  Forall (λ c, is_ascii c = true) x → preprocess U (preprocess U x) = preprocess U x.
Proof.
  intros Hx. rewrite (preprocess_tokens U x).
  set (ts := canonical_unit <$> split U (spaced_words U x)).
  assert (Forall tok_ok ts) as Hts.
  { apply Forall_fmap. eapply Forall_impl; [by apply spaced_tokens_ok|].
    intros t. apply canonical_unit_ok. }
  rewrite preprocess_tokens, spaced_words_join by done. f_equal.
  unfold ts. rewrite <- list_fmap_compose. apply list_fmap_ext.
  intros ? t _. apply canonical_unit_idemp.
Qed.

Lemma preprocess_idempotent_on_ascii_witness :
  preprocess ucd_excerpt (preprocess ucd_excerpt (lit "The 5in. x 3FT board, 2lbs")) =
  preprocess ucd_excerpt (lit "The 5in. x 3FT board, 2lbs").
Proof. apply preprocess_idempotent_on_ascii. by repeat constructor. Defined.

(** C6 as stated fails: the capital I with dot above (U+0130) lowers to an
    [i] followed by a combining dot, which the first pass keeps as a token of
    its own and the second pass drops as a separator. *)
Lemma preprocess_not_idempotent :
  preprocess ucd_excerpt (preprocess ucd_excerpt [304%N]) ≠ preprocess ucd_excerpt [304%N].
Proof. vm_compute. discriminate. Qed.



(** *** The shape of the normalizer's output *)

Lemma split_preprocess U x :
  split U (preprocess U x) = canonical_unit <$> split U (spaced_words U x).
Proof.
  rewrite preprocess_tokens. apply split_join, Forall_fmap.
  eapply Forall_impl; [by apply split_go_shape|]. intros t [Hne Hsp]. unfold compose.
  destruct (canonical_unit_cases t) as [->|(row & Hrow & ->)]; [done|].
  pose proof canonical_forms_ok as Hok. eapply Forall_forall in Hok; [|done].
  by apply tok_ok_no_space.
Qed.

Lemma join_split_preprocess U x :
  join (lit " ") (split U (preprocess U x)) = preprocess U x.
Proof.
  unfold preprocess at 2. f_equal. apply split_join. by apply split_go_shape.
Qed.

(** The output is a sequence of non-empty tokens without whitespace,
    separated by single spaces: it has no space at either end, no two
    spaces in a row and no other whitespace character. *)
Lemma preprocess_single_spaced U x :
  preprocess U x = join (lit " ") (split U (preprocess U x)) ∧
  Forall (λ t, t ≠ [] ∧ Forall (λ c, is_space U c = false) t) (split U (preprocess U x)).
Proof.
  split; [by rewrite join_split_preprocess|by apply split_go_shape].
Qed.

(** On ASCII text every token of the output is made of lower-case letters,
    digits and underscores only, and is either a word of letters or free of
    letters: digits and letters never share a token. *)
Lemma preprocess_ascii_tokens U x :
  Forall (λ c, is_ascii c = true) x →
  Forall tok_ok (split U (preprocess U x)) ∧ Forall plain_or_space (preprocess U x).
Proof.
  intros Hx.
  assert (Forall tok_ok (split U (preprocess U x))) as Htok.
  { rewrite split_preprocess. apply Forall_fmap. eapply Forall_impl; [by apply spaced_tokens_ok|].
    intros t. apply canonical_unit_ok. }
  split; [done|]. rewrite <- join_split_preprocess. apply join_chars.
  eapply Forall_impl; [exact Htok|]. by intros t (_ & Hp & _).
Qed.

Lemma preprocess_ascii_tokens_witness :
  Forall tok_ok (split ucd_excerpt (preprocess ucd_excerpt (lit "<b>Drill</b> 10in. 3FT!"))) ∧
  Forall plain_or_space (preprocess ucd_excerpt (lit "<b>Drill</b> 10in. 3FT!")).
Proof. apply preprocess_ascii_tokens. by repeat constructor. Defined.

Lemma re_split_W_go_nonword U cur b s :
  Forall (λ c, is_word U c = false) s →
  re_split_W_go U cur b s = if b then [cur] else match s with [] => [cur] | _ => [cur; []] end.
Proof.
  intros Hs. revert cur b. induction Hs as [|c s Hc Hs IH]; intros cur b; [by destruct b|].
  cbn [re_split_W_go]. rewrite Hc. destruct b; rewrite IH; done.
Qed.

Lemma replace_nonword U new s :
  Forall (λ c, is_word U c = false) s → replace (lit "in.") new s = s.
Proof.
  unfold replace. induction 1 as [|c s Hc Hs IH]; [done|].
  rewrite sub_alt_go_step, match_alt_none; [by rewrite IH|].
  intros p ->%list_elem_of_singleton. change (lit "in.") with [105; 110; 46]%N.
  cbn [starts_with]. destruct (N.eqb_spec 105 c) as [<-|]; [done|done].
Qed.

(** A text without any word character (empty, blank, punctuation only)
    normalizes to the empty string. *)
Lemma preprocess_no_word U x :
  Forall (λ c, is_word U c = false) x → preprocess U x = [].
Proof.
  intros Hx. unfold preprocess, spaced_words. rewrite (replace_nonword U) by done.
  unfold re_split_W. rewrite re_split_W_go_nonword by done.
  destruct x; vm_compute; reflexivity.
Qed.

Lemma preprocess_no_word_witness : preprocess ucd_excerpt (lit " -- ?! ") = [].
Proof. apply preprocess_no_word. by repeat constructor. Defined.

(** *** Letter case *)

Lemma lower_char_ascii U c :
  is_ascii c = true →
  ∃ d, lower_char U c = [d] ∧ is_ascii d = true ∧ is_word U d = is_word U c ∧
       lower_char U d = [d] ∧ (c ≠ 46%N → d ≠ 46%N).
Proof.
  intros Hc. unfold lower_char. rewrite Hc.
  exists (if in_range 65 90 c then (c + 32)%N else c).
  split; [done|]. unfold is_word, lower_char.
  assert (in_range 65 90 c = true → (65 <= c ∧ c <= 90)%N) as Hup.
  { unfold in_range. intros [?%N.leb_le ?%N.leb_le]%andb_true_iff. done. }
  destruct (in_range 65 90 c) eqn:Hr; [|by rewrite Hc, Hr].
  destruct (Hup eq_refl) as [H1 H2]. clear Hup.
  assert (is_ascii (c + 32) = true) as -> by (unfold is_ascii; apply N.ltb_lt; lia).
  rewrite Hc. assert (in_range 65 90 (c + 32) = false) as ->.
  { unfold in_range. apply andb_false_iff. right. apply N.leb_gt. lia. }
  split; [done|]. split; [|split; [done|lia]].
  assert (is_letter (c + 32) = true) as ->.
  { unfold is_letter, in_range. apply orb_true_iff. right.
    apply andb_true_iff. split; apply N.leb_le; lia. }
  unfold is_letter. by rewrite Hr.
Qed.

Lemma lower_app U a b : lower U (a ++ b) = lower U a ++ lower U b.
Proof. unfold lower. apply flat_map_app. Qed.

Lemma lower_ascii_idemp U w :
  Forall (λ c, is_ascii c = true) w → lower U (lower U w) = lower U w.
Proof.
  induction 1 as [|c w Hc Hw IH]; [done|].
  destruct (lower_char_ascii U c Hc) as (d & Hd & _ & _ & Hdd & _).
  change (lower U (c :: w)) with (lower_char U c ++ lower U w).
  rewrite Hd. cbn [app]. change (lower U (d :: lower U w)) with (lower_char U d ++ lower U (lower U w)).
  by rewrite Hdd, IH.
Qed.

Lemma lower_no_dot U s :
  Forall (λ c, is_ascii c = true) s → Forall (λ c, c ≠ 46%N) s →
  Forall (λ c, c ≠ 46%N) (lower U s).
Proof.
  intros Ha. induction Ha as [|c s Hc Hs IH]; intros Hd; [constructor|].
  apply Forall_cons in Hd as [Hc' Hd].
  destruct (lower_char_ascii U c Hc) as (d & Hd' & _ & _ & _ & Hdot).
  change (lower U (c :: s)) with (lower_char U c ++ lower U s). rewrite Hd'.
  constructor; [by apply Hdot|by apply IH].
Qed.

Lemma re_split_W_go_lower U cur b s :
  Forall (λ c, is_ascii c = true) s →
  re_split_W_go U (lower U cur) b (lower U s) = lower U <$> re_split_W_go U cur b s.
Proof.
  intros Hs. revert cur b. induction Hs as [|c s Hc Hs IH]; intros cur b; [done|].
  destruct (lower_char_ascii U c Hc) as (d & Hd & _ & Hw & _).
  change (lower U (c :: s)) with (lower_char U c ++ lower U s). rewrite Hd.
  cbn [app re_split_W_go]. rewrite Hw. destruct (is_word U c).
  - rewrite <- IH, lower_app. by change (lower U [c]) with (lower_char U c ++ []); rewrite Hd.
  - destruct b; [apply IH|]. cbn [fmap list_fmap]. f_equal. apply (IH [] true).
Qed.

Lemma re_split_W_go_ascii U cur b s :
  Forall (λ c, is_ascii c = true) cur → Forall (λ c, is_ascii c = true) s →
  Forall (Forall (λ c, is_ascii c = true)) (re_split_W_go U cur b s).
Proof.
  intros Hcur Hs. revert cur b Hcur. induction Hs as [|c s Hc Hs IH]; intros cur b Hcur.
  - by repeat constructor.
  - cbn [re_split_W_go]. destruct (is_word U c).
    + apply IH. apply Forall_app. by split; [|repeat constructor].
    + destruct b; [by apply IH|]. constructor; [done|]. by apply IH.
Qed.

(** Apart from the unit written ["in."], the normalizer does not tell upper
    from lower case: on ASCII text without a period, lowering the input
    first gives the same output. *)
Lemma preprocess_case_insensitive U x :
  Forall (λ c, is_ascii c = true) x → Forall (λ c, c ≠ 46%N) x →
  preprocess U (lower U x) = preprocess U x.
Proof.
  intros Ha Hd. unfold preprocess. do 3 f_equal. unfold spaced_words. do 2 f_equal.
  rewrite !replace_no_dot by (done || by apply lower_no_dot).
  unfold re_split_W. change (@nil N) with (lower U []) at 1.
  rewrite (re_split_W_go_lower U [] false x Ha).
  rewrite <- list_fmap_compose. apply Forall_fmap_ext.
  eapply Forall_impl; [by apply (re_split_W_go_ascii U [] false x)|].
  intros w Hw. by apply lower_ascii_idemp.
Qed.

Lemma preprocess_case_insensitive_witness :
  preprocess ucd_excerpt (lower ucd_excerpt (lit "Blue SHIRT, 3FT x 2 Lbs")) =
  preprocess ucd_excerpt (lit "Blue SHIRT, 3FT x 2 Lbs").
Proof. apply preprocess_case_insensitive; by repeat constructor. Defined.

(** The literal ["in."] is looked for before the text is lowered. *)
Example preprocess_inch_case :
  preprocess ucd_excerpt (lit "5in.") = lit "5 inch" ∧
  preprocess ucd_excerpt (lit "5IN.") = lit "5 in".
Proof. split; vm_compute; reflexivity. Qed.

(** *** Unit standardization on its own *)

(** The matches of one substitution do not overlap and each takes both of
    its spaces, so of two abbreviations of the same unit with a single space
    between them only the first is replaced; the normalizer, which puts
    every word between spaces of its own, replaces both. *)
Lemma standardize_units_shared_space U row a b :
  row ∈ unit_table → a ∈ row.1 → b ∈ row.1 →
  standardize_units (a ++ lit " " ++ b) = lit " " ++ row.2 ++ lit " " ++ b ++ lit " " ∧
  preprocess U (a ++ lit " " ++ b) = row.2 ++ lit " " ++ row.2.
Proof.
  intros Hrow Ha Hb.
  assert (Forall (λ row, Forall (λ a, Forall (λ b,
            standardize_units (a ++ lit " " ++ b) = lit " " ++ row.2 ++ lit " " ++ b ++ lit " " ∧
            canonical_unit a ++ lit " " ++ canonical_unit b = row.2 ++ lit " " ++ row.2 ∧
            tok_ok a) row.1) row.1) unit_table) as H.
  { unfold tok_ok, letters.
    repeat first [apply Forall_nil_2 | apply Forall_cons_2 | split | done
                 | (vm_compute; reflexivity) | (left; by repeat constructor)]. }
  eapply Forall_forall in H; [|exact Hrow].
  pose proof H as H'. eapply Forall_forall in H'; [|exact Hb].
  eapply Forall_forall in H'; [|exact Hb]. destruct H' as (_ & _ & Hokb).
  eapply Forall_forall in H; [|exact Ha]. eapply Forall_forall in H; [|exact Hb].
  destruct H as (Hs & Hc & Hoka). split; [done|].
  change (a ++ lit " " ++ b) with (join (lit " ") [a; b]).
  rewrite preprocess_tokens, spaced_words_join by (by repeat apply Forall_cons_2). exact Hc.
Qed.

Lemma standardize_units_shared_space_witness :
  standardize_units (lit "lbs" ++ lit " " ++ lit "pounds") =
    lit " " ++ lit "pound" ++ lit " " ++ lit "pounds" ++ lit " " ∧
  preprocess ucd_excerpt (lit "lbs" ++ lit " " ++ lit "pounds") = lit "pound" ++ lit " " ++ lit "pound".
Proof.
  apply (standardize_units_shared_space ucd_excerpt
           ([lit "lb"; lit "lbs"; lit "pounds"], lit "pound") (lit "lbs") (lit "pounds")).
  - by apply (bool_decide_unpack _).
  - by apply (bool_decide_unpack _).
  - by apply (bool_decide_unpack _).
Defined.

(** *** The tag stripper *)

Lemma tag_closes_no_gt seen s : Forall (λ c, c ≠ 62%N) s → tag_closes seen s = false.
Proof.
  intros Hs. revert seen. induction Hs as [|c s Hc Hs IH]; intros seen; [done|].
  cbn [tag_closes]. destruct (N.eqb_spec c 62); [done|apply IH].
Qed.

(** No tag begins right before [s]: there is no [>] in [s], or it comes
    first. *)
Lemma tag_closes_false s :
  tag_closes false s = false ↔ Forall (λ c, c ≠ 62%N) s ∨ ∃ s', s = 62%N :: s'.
Proof.
  split.
  - destruct s as [|c s]; [by left|]. cbn [tag_closes].
    destruct (N.eqb_spec c 62) as [->|Hc]; [right; by eexists|]. intros H. left.
    constructor; [done|]. clear c Hc. induction s as [|c s IH]; [constructor|].
    cbn [tag_closes] in H. destruct (N.eqb_spec c 62) as [->|Hc]; [done|].
    constructor; [done|by apply IH].
  - intros [H|[s' ->]]; [by apply tag_closes_no_gt|done].
Qed.

Lemma strip_tags_go_chars (P : N → Prop) b s :
  Forall P s → Forall P (strip_tags_go b s).
Proof.
  intros Hs. revert b. induction Hs as [|c s Hc Hs IH]; intros b; [constructor|].
  cbn [strip_tags_go]. destruct b; [apply IH|].
  destruct (_ && _); [apply IH|]. constructor; [done|apply IH].
Qed.

Lemma strip_tags_go_length b s : length (strip_tags_go b s) ≤ length s.
Proof.
  revert b. induction s as [|c s IH]; intros b; [done|].
  cbn [strip_tags_go]. destruct b.
  - specialize (IH (negb (c =? 62)%N)). cbn [length]. lia.
  - destruct (_ && _); cbn [length].
    + specialize (IH true). lia.
    + specialize (IH false). lia.
Qed.

Lemma strip_tags_go_idemp b s :
  strip_tags_go false (strip_tags_go b s) = strip_tags_go b s.
Proof.
  revert b. induction s as [|c s IH]; intros b; [done|].
  cbn [strip_tags_go]. destruct b; [apply IH|].
  destruct ((c =? 60)%N && tag_closes false s) eqn:Hm; [apply IH|].
  cbn [strip_tags_go]. rewrite IH.
  destruct (N.eqb_spec c 60) as [->|Hc]; [|done]. cbn [andb] in Hm |- *.
  assert (tag_closes false (strip_tags_go false s) = false) as ->; [|done].
  apply tag_closes_false. apply tag_closes_false in Hm as [Hm|[s' ->]].
  - left. by apply strip_tags_go_chars.
  - right. cbn [strip_tags_go]. cbn [N.eqb Pos.eqb andb]. by eexists.
Qed.

(** Stripping tags twice is stripping them once: what is left after one
    pass holds no complete tag. *)
Lemma clean_text_idempotent text : clean_text (clean_text text) = clean_text text.
Proof. apply strip_tags_go_idemp. Qed.

Lemma tag_closes_seen s :
  tag_closes true s = true ↔ ∃ name post, s = name ++ 62%N :: post ∧ Forall (λ c, c ≠ 62%N) name.
Proof.
  split.
  - induction s as [|c s IH]; [done|]. cbn [tag_closes].
    destruct (N.eqb_spec c 62) as [->|Hc].
    + intros _. by exists [], s.
    + intros (name & post & -> & Hname)%IH. exists (c :: name), post. by split; [|constructor].
  - intros (name & post & -> & Hname). induction Hname as [|c name Hc _ IH]; cbn [app tag_closes].
    + done.
    + by destruct (N.eqb_spec c 62).
Qed.

(** A tag begins right before [s]: at least one character other than [>],
    then a [>]. *)
Lemma tag_closes_true s :
  tag_closes false s = true ↔
  ∃ name post, s = name ++ 62%N :: post ∧ name ≠ [] ∧ Forall (λ c, c ≠ 62%N) name.
Proof.
  split.
  - destruct s as [|c s]; [done|]. cbn [tag_closes].
    destruct (N.eqb_spec c 62) as [->|Hc]; [done|].
    intros (name & post & -> & Hname)%tag_closes_seen.
    exists (c :: name), post. by split_and!; [| |constructor].
  - intros (name & post & -> & Hne & Hname). destruct name as [|c name]; [done|].
    apply Forall_cons in Hname as [Hc Hname]. cbn [app tag_closes].
    destruct (N.eqb_spec c 62); [done|]. apply tag_closes_seen. by exists name, post.
Qed.

Lemma strip_tags_go_fixed text :
  strip_tags_go false text = text ↔ ∀ a b, text = a ++ 60%N :: b → tag_closes false b = false.
Proof.
  split.
  - intros Heq a b ->. destruct (tag_closes false b) eqn:Hb; [|done]. exfalso.
    assert (length (strip_tags_go false (a ++ 60%N :: b)) < length (a ++ 60%N :: b)) as Hlt;
      [|rewrite Heq in Hlt; lia].
    clear Heq. induction a as [|c a IH].
    + cbn [app strip_tags_go N.eqb Pos.eqb andb]. rewrite Hb.
      pose proof (strip_tags_go_length true b). cbn [length]. lia.
    + cbn [app strip_tags_go]. destruct (_ && _); cbn [length].
      * pose proof (strip_tags_go_length true (a ++ 60%N :: b)). lia.
      * lia.
  - induction text as [|c s IH]; intros H; [done|].
    cbn [strip_tags_go]. destruct (N.eqb_spec c 60) as [->|Hc]; cbn [andb].
    + rewrite (H [] s eq_refl). f_equal. apply IH. intros a b ->.
      apply (H (60%N :: a) b). done.
    + f_equal. apply IH. intros a b ->. apply (H (c :: a) b). done.
Qed.

(** The text is changed exactly when it holds a complete tag: a [<], then
    at least one character other than [>], then a [>].  An empty pair [<>]
    and a [<] that is never closed stay. *)
Lemma clean_text_fixed_iff text :
  clean_text text = text ↔
  ¬ ∃ pre name post, text = pre ++ 60%N :: name ++ 62%N :: post ∧
                     name ≠ [] ∧ Forall (λ c, c ≠ 62%N) name.
Proof.
  unfold clean_text. rewrite strip_tags_go_fixed. split.
  - intros H (pre & name & post & -> & Hne & Hname).
    specialize (H pre (name ++ 62%N :: post) eq_refl).
    apply not_true_iff_false in H. apply H, tag_closes_true. by exists name, post.
  - intros H a b ->. apply not_true_iff_false. intros (name & post & -> & Hne & Hname)%tag_closes_true.
    apply H. by exists a, name, post.
Qed.

(** A tag whose opening [<] follows text without [<] is removed as a
    whole, and stripping goes on after its [>]. *)
Lemma clean_text_tag pre name post :
  Forall (λ c, c ≠ 60%N) pre → name ≠ [] → Forall (λ c, c ≠ 62%N) name →
  clean_text (pre ++ 60%N :: name ++ 62%N :: post) = pre ++ clean_text post.
Proof.
  intros Hpre Hne Hname. unfold clean_text.
  induction Hpre as [|c pre Hc Hpre IH].
  - cbn [app strip_tags_go N.eqb Pos.eqb andb].
    assert (tag_closes false (name ++ 62%N :: post) = true) as ->.
    { destruct name as [|c name]; [done|]. apply Forall_cons in Hname as [Hc Hname].
      cbn [app tag_closes]. destruct (N.eqb_spec c 62); [done|].
      clear -Hname. induction Hname as [|d name Hd _ IH]; [done|].
      cbn [app tag_closes]. by destruct (N.eqb_spec d 62). }
    clear Hne. induction Hname as [|d name Hd _ IH].
    + cbn [app strip_tags_go]. done.
    + cbn [app strip_tags_go]. by destruct (N.eqb_spec d 62).
  - cbn [app strip_tags_go]. destruct (N.eqb_spec c 60); [done|]. cbn [andb]. by rewrite IH.
Qed.

Lemma clean_text_tag_witness :
  clean_text (lit "a " ++ 60%N :: lit "b class='x'" ++ 62%N :: lit "Drill</b>") =
  lit "a " ++ clean_text (lit "Drill</b>").
Proof. apply clean_text_tag; [by repeat constructor|done|by repeat constructor]. Defined.

(** *** Idempotence beyond ASCII *)

Lemma plain_steady U c : plain c = true → steady U c.
Proof.
  intros Hc. split_and!; [by apply plain_word|by apply plain_not_space|by apply plain_lower].
Qed.

Lemma tok_ok_steady U t : tok_ok t → tok_steady U t.
Proof.
  intros (Hne & Hp & Hl). split_and!; [done| |done].
  eapply Forall_impl; [exact Hp|]. intros c. apply plain_steady.
Qed.

Lemma canonical_unit_steady U t : tok_steady U t → tok_steady U (canonical_unit t).
Proof.
  intros Ht. destruct (canonical_unit_cases t) as [->|(row & Hrow & ->)]; [done|].
  pose proof canonical_forms_ok as H. eapply Forall_forall in H; [|done].
  by apply tok_ok_steady.
Qed.

Lemma lowers_to_words_ascii U c : is_ascii c = true → lowers_to_words U c.
Proof.
  intros Hc Hw. destruct (lower_char_ascii U c Hc) as (d & -> & _ & Hwd & Hdd & _).
  repeat constructor; [by rewrite Hwd|done].
Qed.

Lemma join_chars_or_space (P : N → Prop) ws :
  Forall (Forall P) ws → Forall (λ c, P c ∨ c = SPACE) (join (lit " ") ws).
Proof.
  induction 1 as [|w ws Hw Hws IH]; [constructor|].
  assert (Forall (λ c, P c ∨ c = SPACE) w) as Hw'.
  { eapply Forall_impl; [exact Hw|]. intros c ?. by left. }
  destruct ws as [|w2 ws]; [done|].
  change (join (lit " ") (w :: w2 :: ws)) with (w ++ SPACE :: join (lit " ") (w2 :: ws)).
  apply Forall_app. split; [done|]. constructor; [by right|done].
Qed.

(** The characters of the text handed to [standardize_units]. *)
Lemma spaced_words_lowered U x :
  Forall (lowers_to_words U) x →
  Forall (λ c, (is_word U c = true ∧ lower_char U c = [c]) ∨ c = SPACE) (spaced_words U x).
Proof.
  intros Hx. unfold spaced_words. apply space_letter_runs_chars; [by right|].
  apply join_chars_or_space, Forall_fmap. unfold re_split_W.
  eapply Forall_impl; [apply (re_split_W_go_chars U (lowers_to_words U))|].
  - apply sub_alt_go_chars; [|done].
    repeat (apply Forall_cons_2; [by apply lowers_to_words_ascii|]). constructor.
  - constructor.
  - intros w Hw. unfold lower. apply Forall_flat_map.
    eapply Forall_impl; [exact Hw|]. intros c [Hc Hwc]. by apply Hc.
Qed.

Lemma emit_steady U cur :
  nonletters cur → Forall (steady U) cur → Forall (tok_steady U) (emit cur).
Proof.
  intros H1 H2. destruct cur as [|c cur]; [constructor|].
  constructor; [|constructor]. split; [done|]. split; [done|by right].
Qed.

Lemma toks_steady U cur its :
  Forall wf_item its →
  Forall (λ c, (is_word U c = true ∧ lower_char U c = [c]) ∨ c = SPACE) (render its) →
  nonletters cur → Forall (steady U) cur →
  Forall (tok_steady U) (toks U cur its).
Proof.
  intros Hits. revert cur. induction Hits as [|[w|c] its Hit Hits IH]; intros cur Hr Hcur Hp.
  - by apply emit_steady.
  - destruct Hit as [Hne Hw]. cbn [render render_item] in Hr.
    change (SPACE :: w ++ [SPACE]) with ([SPACE] ++ w ++ [SPACE]) in Hr.
    rewrite !Forall_app in Hr. destruct Hr as [(_ & Hwp & _) Hr].
    cbn [toks]. apply Forall_app. split; [by apply emit_steady|].
    constructor; [|by apply IH; [|constructor|constructor]].
    split; [done|]. split; [|by left].
    apply Forall_forall. intros c Hc.
    assert (is_letter c = true) as Hl by (by eapply Forall_forall in Hw).
    eapply Forall_forall in Hwp; [|exact Hc]. destruct Hwp as [[? ?]| ->].
    + split_and!; [done|by apply letter_is_space|done].
    + by apply letter_not_space in Hl.
  - cbn [render render_item app] in Hr. apply Forall_cons in Hr as [Hc Hr].
    cbn [toks]. destruct (is_space U c) eqn:Hsp.
    + apply Forall_app. split; [by apply emit_steady|].
      by apply IH; [|constructor|constructor].
    + destruct Hc as [[? ?]| ->]; [|by rewrite space_is_space in Hsp].
      apply IH; [done| |]; apply Forall_app; by split; [|repeat constructor].
Qed.

(** The tokens of the first pass. *)
Lemma spaced_tokens_steady U x :
  Forall (lowers_to_words U) x → Forall (tok_steady U) (split U (spaced_words U x)).
Proof.
  intros Hx. pose proof (spaced_words_lowered U x Hx) as Hch. revert Hch.
  unfold spaced_words at 1 2.
  destruct (spaced_render (join (lit " ") (lower U <$> re_split_W U (replace (lit "in.") (lit " inch ") x))))
    as (its & Hits & ->).
  intros Hch. unfold split. rewrite split_render by done.
  by apply toks_steady; [| |constructor|constructor].
Qed.

(** The second pass reads the tokens back. *)
Lemma word_not_dot U c : is_word U c = true → c ≠ 46%N.
Proof. by intros Hc ->. Qed.

Lemma re_split_W_join_words U ts :
  ts ≠ [] → Forall (λ t, t ≠ [] ∧ Forall (λ c, is_word U c = true) t) ts →
  re_split_W U (join (lit " ") ts) = ts.
Proof.
  intros Hne Hts. unfold re_split_W. induction Hts as [|t ts [Hnt Hw] Hts IH]; [done|].
  destruct ts as [|t2 ts].
  - cbn [join]. rewrite <- (app_nil_r t) at 1. by rewrite re_split_W_go_app.
  - change (join (lit " ") (t :: t2 :: ts)) with (t ++ SPACE :: join (lit " ") (t2 :: ts)).
    rewrite re_split_W_go_app by done. cbn [app re_split_W_go].
    replace (is_word U SPACE) with false by reflexivity. f_equal.
    trans (re_split_W_go U [] false (join (lit " ") (t2 :: ts))); [|by apply IH].
    apply Forall_cons in Hts as [[Hne2 Hp2] _].
    destruct t2 as [|c t2]; [done|]. apply Forall_cons in Hp2 as [Hc _].
    destruct ts; cbn [join app re_split_W_go]; by rewrite Hc.
Qed.

Lemma lower_fixed U t : Forall (λ c, lower_char U c = [c]) t → lower U t = t.
Proof.
  unfold lower. induction 1 as [|c t Hc Ht IH]; [done|].
  cbn [flat_map]. by rewrite Hc, IH.
Qed.

Lemma split_spaced_join_steady U ts :
  Forall (tok_steady U) ts → split U (space_letter_runs false (join (lit " ") ts)) = ts.
Proof.
  unfold split. induction 1 as [|t ts Ht Hts IH]; [done|].
  destruct Ht as (Hne & Hst & Hl).
  assert (Forall (λ c, is_space U c = false) t) as Hsp.
  { eapply Forall_impl; [exact Hst|]. by intros c (_ & ? & _). }
  destruct Hl as [Hl|Hn].
  - destruct ts as [|t2 ts].
    + cbn [join]. rewrite <- (app_nil_r t) at 1.
      rewrite space_letter_runs_letters by done. cbn [app space_letter_runs].
      rewrite split_go_space, split_go_app, split_go_space by done. by destruct t.
    + change (join (lit " ") (t :: t2 :: ts)) with (t ++ SPACE :: join (lit " ") (t2 :: ts)).
      rewrite space_letter_runs_letters by done. cbn [app space_letter_runs].
      replace (is_letter SPACE) with false by reflexivity. cbn [app].
      rewrite split_go_space, split_go_app, !split_go_space, IH by done. by destruct t.
  - destruct ts as [|t2 ts].
    + cbn [join]. rewrite <- (app_nil_r t) at 1.
      rewrite space_letter_runs_nonletters by done. cbn [space_letter_runs].
      rewrite split_go_app by done. by destruct t.
    + change (join (lit " ") (t :: t2 :: ts)) with (t ++ SPACE :: join (lit " ") (t2 :: ts)).
      rewrite space_letter_runs_nonletters by done. cbn [space_letter_runs].
      replace (is_letter SPACE) with false by reflexivity. cbn [app].
      rewrite split_go_app, split_go_space, IH by done. by destruct t.
Qed.

Lemma spaced_words_join_steady U ts :
  Forall (tok_steady U) ts → split U (spaced_words U (join (lit " ") ts)) = ts.
Proof.
  intros Hts. unfold spaced_words. rewrite replace_no_dot.
  2:{ eapply Forall_impl; [apply (join_chars_or_space (λ c, is_word U c = true))|].
      - eapply Forall_impl; [exact Hts|]. intros t (_ & Hst & _).
        eapply Forall_impl; [exact Hst|]. by intros c (? & _).
      - intros c [Hc| ->]; [by apply (word_not_dot U)|done]. }
  destruct ts as [|t ts]; [done|].
  rewrite re_split_W_join_words; [|done|].
  2:{ eapply Forall_impl; [exact Hts|]. intros w (? & Hst & _). split; [done|].
      eapply Forall_impl; [exact Hst|]. by intros c (? & _). }
  replace (lower U <$> t :: ts) with (t :: ts); [by apply split_spaced_join_steady|].
  symmetry. rewrite <- (list_fmap_id (t :: ts)) at 2. apply Forall_fmap_ext.
  eapply Forall_impl; [exact Hts|]. intros w (_ & Hst & _). apply lower_fixed.
  eapply Forall_impl; [exact Hst|]. by intros c (_ & _ & ?).
Qed.

(** C6, as amended.  The normalizer is idempotent on every text whose word
    characters have a lower case made of word characters that are their own
    lower case, as all ASCII characters and the accented letters have:
    normalizing a normalized text changes nothing. *)
Theorem preprocess_idempotent_lowered U x :
  Forall (lowers_to_words U) x → preprocess U (preprocess U x) = preprocess U x.
Proof.
  intros Hx. rewrite (preprocess_tokens U x).
  set (ts := canonical_unit <$> split U (spaced_words U x)).
  assert (Forall (tok_steady U) ts) as Hts.
  { apply Forall_fmap. eapply Forall_impl; [by apply spaced_tokens_steady|].
    intros t. apply canonical_unit_steady. }
  rewrite preprocess_tokens, spaced_words_join_steady by done. f_equal.
  unfold ts. rewrite <- list_fmap_compose. apply list_fmap_ext.
  intros ? t _. apply canonical_unit_idemp.
Qed.

(** The text "École Café 5in. x 3FT", normalized to
    "é cole caf é 5 inch x 3 feet". *)
Lemma preprocess_idempotent_lowered_witness :
  preprocess ucd_accents
    (preprocess ucd_accents ([201%N] ++ lit "cole Caf" ++ [233%N] ++ lit " 5in. x 3FT")) =
  preprocess ucd_accents ([201%N] ++ lit "cole Caf" ++ [233%N] ++ lit " 5in. x 3FT").
Proof.
  apply preprocess_idempotent_lowered.
  repeat (apply Forall_cons_2;
            [intros Hw; first [discriminate Hw | by repeat constructor]|]).
  apply Forall_nil_2.
Defined.

Example preprocess_accents :
  preprocess ucd_accents ([201%N] ++ lit "cole Caf" ++ [233%N] ++ lit " 5in. x 3FT") =
  [233%N] ++ lit " cole caf " ++ [233%N] ++ lit " 5 inch x 3 feet".
Proof. vm_compute. reflexivity. Qed.

(** The ASCII texts are among them. *)
Lemma ascii_lowers_to_words U x :
  Forall (λ c, is_ascii c = true) x → Forall (lowers_to_words U) x.
Proof. intros H. eapply Forall_impl; [exact H|]. intros c. apply lowers_to_words_ascii. Qed.

End Normalizer.

(** ** Properties of the pipeline *)

Module Pipeline.
Import Py Train Samples Grouping Normalizer.

(** *** The dataset builder *)

Lemma bind_ok {A B} (m : result A) (f : A → result B) b :
  m ≫= f = Ok b → ∃ a, m = Ok a ∧ f a = Ok b.
Proof. destruct m as [a|e]; [|done]. intros H. by exists a. Qed.

Lemma mapM_result_ok {A B} (f : A → result B) l l' :
  mapM_result f l = Ok l' → Forall2 (λ x y, f x = Ok y) l l'.
Proof.
  revert l'. induction l as [|x l IH]; intros l' H; cbn [mapM_result] in H.
  - injection H as <-. constructor.
  - apply bind_ok in H as (y & Hy & H). apply bind_ok in H as (ys & Hys & H).
    injection H as <-. constructor; [done|by apply IH].
Qed.

Section Unique.
Context `{EqDecision A}.

Lemma unique_fold_spec (l acc : list A) :
  NoDup acc →
  let r := fold_left (λ acc x, if decide (x ∈ acc) then acc else acc ++ [x]) l acc in
  NoDup r ∧ ∀ x, x ∈ r ↔ x ∈ acc ∨ x ∈ l.
Proof.
  revert acc. induction l as [|y l IH]; intros acc Hacc; cbn [fold_left].
  - split; [done|]. intros x. rewrite elem_of_nil. tauto.
  - destruct (decide (y ∈ acc)) as [Hy|Hy].
    + destruct (IH acc Hacc) as [Hnd Hin]. split; [done|].
      intros x. rewrite (Hin x), elem_of_cons. split; [tauto|].
      intros [?|[->|?]]; tauto.
    + destruct (IH (acc ++ [y])) as [Hnd Hin].
      { apply NoDup_app. split_and!; [done| |apply NoDup_singleton].
        intros x Hx ->%list_elem_of_singleton. done. }
      split; [done|]. intros x.
      rewrite (Hin x), elem_of_cons, elem_of_app, list_elem_of_singleton. tauto.
Qed.

Lemma NoDup_unique (l : list A) : NoDup (unique l).
Proof. apply (unique_fold_spec l []). constructor. Qed.

Lemma elem_of_unique (l : list A) x : x ∈ unique l ↔ x ∈ l.
Proof.
  destruct (unique_fold_spec l [] (NoDup_nil_2)) as [_ H]. etrans; [apply H|].
  rewrite elem_of_nil. tauto.
Qed.

Lemma unique_snoc (l : list A) x :
  unique (l ++ [x]) = if decide (x ∈ l) then unique l else unique l ++ [x].
Proof.
  unfold unique at 1. rewrite fold_left_app. cbn [fold_left]. fold (unique l).
  destruct (decide (x ∈ l)) as [Hx|Hx]; case_decide as Hx'; try done.
  - destruct Hx'. by apply (proj2 (elem_of_unique l x)).
  - destruct Hx. by apply (proj1 (elem_of_unique l x)).
Qed.

End Unique.

Section Builder.
Variable shuffled : Z → list Z → list Z.
Variable float_ceil_mul : Q → nat → nat.

(** What a successful run of the builder went through. *)
Lemma dataset_builder_ok args df cat train dev :
  dataset_builder shuffled float_ceil_mul args df cat = Ok (train, dev) →
  let joined := joined_frame (locale args) df cat in
  let ids := unique ((λ r, p_query_id r.1) <$> joined) in
  ∃ n_test rows,
    let permutation := shuffled (random_state args) ids in
    (Z.of_nat (length ids) - Z.of_nat n_test ≠ 0)%Z ∧
    Forall2 (λ r row, with_gain r = Ok row) joined rows ∧
    train = filter (λ r, query_id r ∈ take (Z.to_nat (Z.of_nat (length ids) - Z.of_nat n_test))
                                           (drop n_test permutation)) rows ∧
    dev = filter (λ r, query_id r ∈ take n_test permutation) rows.
Proof.
  unfold dataset_builder. intros H. cbn zeta.
  apply bind_ok in H as (dev_size & Hsize & H).
  apply bind_ok in H as ([tr te] & Hsplit & H).
  apply bind_ok in H as (rows & Hrows & H). injection H as <- <-.
  unfold train_test_split in Hsplit.
  destruct (_ || _); [done|]. case_decide as Hn; [done|]. injection Hsplit as <- <-.
  eexists _, rows. split_and!; [done|by apply mapM_result_ok|done|done].
Qed.

End Builder.

Lemma with_gain_ok r row :
  with_gain r = Ok row →
  query_id row = p_query_id r.1 ∧
  dict_get esci_label2gain (esci_label row) = Some (gain row).
Proof.
  unfold with_gain. destruct (dict_get _ _) as [g|] eqn:Hg; [|done].
  intros [= <-]. done.
Qed.

Lemma rows_query_ids (joined : list (Pair * str)) rows :
  Forall2 (λ r row, with_gain r = Ok row) joined rows →
  query_id <$> rows = (λ r, p_query_id r.1) <$> joined.
Proof.
  induction 1 as [|r row joined rows Hr _ IH]; [done|].
  cbn [fmap list_fmap]. f_equal; [by apply with_gain_ok in Hr as [-> _]|done].
Qed.

Lemma split_ids_cover (s : list Z) n_test :
  NoDup s →
  let te := take n_test s in
  let tr := take (Z.to_nat (Z.of_nat (length s) - Z.of_nat n_test)) (drop n_test s) in
  (∀ x, x ∈ tr → x ∈ te → False) ∧ (∀ x, x ∈ s ↔ x ∈ tr ∨ x ∈ te).
Proof.
  intros Hnd te tr.
  assert (tr = drop n_test s) as Htr.
  { unfold tr. apply take_ge. rewrite length_drop. lia. }
  rewrite <- (take_drop n_test s) in Hnd. apply NoDup_app in Hnd as (_ & Hdisj & _).
  split.
  - intros x Hx Hx'. rewrite Htr in Hx. by eapply Hdisj.
  - intros x. rewrite Htr. rewrite <- (take_drop n_test s) at 1.
    rewrite elem_of_app. unfold te. tauto.
Qed.

Lemma filter_ids_set (rows : list Row) (ids : list Z) :
  (∀ x, x ∈ ids → x ∈ query_id <$> rows) →
  list_to_set (C := gset Z) (query_id <$> filter (λ r, query_id r ∈ ids) rows) = list_to_set ids.
Proof.
  intros Hsub. apply set_eq. intros x.
  rewrite !elem_of_list_to_set, list_elem_of_fmap. split.
  - intros (r & -> & Hr). by apply list_elem_of_filter in Hr as [? _].
  - intros Hx. destruct (proj1 (list_elem_of_fmap _ _ _) (Hsub x Hx)) as (r & -> & Hr).
    exists r. split; [done|]. by apply list_elem_of_filter.
Qed.

(** C1.  When the builder returns its two frames, and the library's shuffle
    is a rearrangement of its argument, the query ids of the train frame and
    of the dev frame are disjoint and together are the query ids of the
    locale-filtered, title-joined input. *)
Theorem train_dev_partition shuffled float_ceil_mul args df cat train dev :
  (∀ seed l, shuffled seed l ≡ₚ l) →
  dataset_builder shuffled float_ceil_mul args df cat = Ok (train, dev) →
  list_to_set (C := gset Z) (query_id <$> train) ## list_to_set (C := gset Z) (query_id <$> dev) ∧
  list_to_set (C := gset Z) (query_id <$> train) ∪ list_to_set (query_id <$> dev) =
    list_to_set ((λ r, p_query_id r.1) <$> joined_frame (locale args) df cat).
Proof.
  intros Hperm Hok. apply dataset_builder_ok in Hok. cbn zeta in Hok.
  destruct Hok as (n_test & rows & Hn & Hrows & -> & ->).
  set (joined := joined_frame (locale args) df cat) in *.
  set (ids := unique ((λ r, p_query_id r.1) <$> joined)) in *.
  set (s := shuffled (random_state args) ids) in *.
  assert (NoDup s) as Hnd by (unfold s; rewrite Hperm; apply NoDup_unique).
  assert (length s = length ids) as Hlen by (unfold s; by rewrite Hperm).
  assert (∀ x, x ∈ s ↔ x ∈ query_id <$> rows) as Hs.
  { intros x. unfold s. rewrite Hperm. unfold ids. rewrite elem_of_unique.
    by rewrite (rows_query_ids _ _ Hrows). }
  rewrite <- Hlen in *.
  destruct (split_ids_cover s n_test Hnd) as [Hdisj Hcover]. cbn zeta in *.
  rewrite !filter_ids_set.
  - split.
    + intros x Hx Hx'. rewrite elem_of_list_to_set in Hx, Hx'. by eapply Hdisj.
    + apply set_eq. intros x. rewrite elem_of_union, !elem_of_list_to_set.
      rewrite <- (rows_query_ids _ _ Hrows), <- Hs. symmetry. apply Hcover.
  - intros x Hx. apply Hs, Hcover. by right.
  - intros x Hx. apply Hs, Hcover. by left.
Qed.

(** C9.  The builder raises during the computation of the split whenever
    the number of dev queries asked for reaches the number of distinct query
    ids of the filtered, joined input. *)
Theorem dataset_builder_dev_too_large shuffled float_ceil_mul args df cat :
  (Z.of_nat (length (unique ((λ r, p_query_id r.1) <$> joined_frame (locale args) df cat)))
     ≤ n_dev_queries args)%Z →
  dataset_builder shuffled float_ceil_mul args df cat = Raise ZeroDivisionError ∨
  dataset_builder shuffled float_ceil_mul args df cat =
    Raise (ValueError "test_size should be a float in the (0, 1) range").
Proof.
  intros Hle. unfold dataset_builder. cbn zeta.
  set (ids := unique _) in *. unfold true_div.
  destruct (length ids) as [|n] eqn:Hlen; [by left|]. right.
  cbn [mbind result_bind]. unfold train_test_split.
  replace (Qle_bool 1 _) with true; [by rewrite orb_true_r|].
  symmetry. apply Qle_bool_iff. unfold Qle. cbn [Qnum Qden].
  pose proof (Nat2Pos.id (S n) ltac:(done)) as H1.
  pose proof (positive_nat_Z (Pos.of_nat (S n))) as H2. rewrite H1 in H2. lia.
Qed.

(** *** The augmenter *)

Section Augmenter.
Variable random_draw : nat → nat.
Variable synonym_augment : nat → value → value.

Lemma augment_loop_rows df k draws rows :
  Augmentation.augment_loop synonym_augment df k draws = Ok rows →
  Forall2 (λ ki row, ∃ q t l,
             row = [synonym_augment ki.1 q; t; l] ∧
             iloc_get df ki.2 "query" = Ok q ∧
             iloc_get df ki.2 "product_title" = Ok t ∧
             iloc_get df ki.2 "esci_label" = Ok l)
          (zip (seq k (length draws)) draws) rows.
Proof.
  revert k rows. induction draws as [|i draws IH]; intros k rows H;
    cbn [Augmentation.augment_loop] in H.
  - injection H as <-. constructor.
  - apply bind_ok in H as (row & Hrow & H). apply bind_ok in H as (rows' & Hrows & H).
    injection H as <-. cbn [length seq zip zip_with]. constructor; [|by apply IH].
    unfold Augmentation.augment_one in Hrow.
    apply bind_ok in Hrow as (q & Hq & Hrow). apply bind_ok in Hrow as (l & Hl & Hrow).
    apply bind_ok in Hrow as (t & Ht & Hrow). injection Hrow as <-.
    by exists q, t, l.
Qed.

(** The frame [new], when it is built: one row for each of the [samples]
    draws, holding the augmented query of the drawn row, that row's title
    and label, and the label's gain. *)
Lemma new_frame_rows df samples new :
  Augmentation.new_frame random_draw synonym_augment df samples = Ok new →
  columns new = ["query"; "product_title"; "esci_label"; "gain"] ∧
  Forall2 (λ k row, ∃ q t l g,
             let i := random_draw k `mod` length (records df) in
             row = [synonym_augment k q; t; VStr l; VFloat g] ∧
             iloc_get df i "query" = Ok q ∧
             iloc_get df i "product_title" = Ok t ∧
             iloc_get df i "esci_label" = Ok (VStr l) ∧
             dict_get Augmentation.esci_label2gain l = Some g)
          (seq 0 samples) (records new).
Proof.
  unfold Augmentation.new_frame. intros H.
  apply bind_ok in H as (draws & Hdraws & H). apply bind_ok in H as (rows & Hrows & H).
  apply bind_ok in H as (rows' & Hgain & H). injection H as <-. split; [done|].
  cbn [records]. unfold Augmentation.randint in Hdraws. case_decide; [done|].
  injection Hdraws as <-. apply augment_loop_rows in Hrows.
  apply mapM_result_ok in Hgain. rewrite length_fmap, length_seq in Hrows.
  set (n := length (records df)) in *. clearbody n.
  revert Hrows rows' Hgain. generalize 0 at 1 2 3. generalize samples. clear.
  intros m k Hrows. remember (zip (seq k m) ((λ k, random_draw k `mod` n) <$> seq k m)) as zs eqn:Hzs.
  revert m k Hzs. induction Hrows as [|[k' i] row zs rows (q & t & l & -> & Hq & Ht & Hl) Hrows IH];
    intros m k Hzs rows' Hgain.
  - apply Forall2_nil_inv_l in Hgain as ->. destruct m; [constructor|done].
  - apply Forall2_cons_inv_l in Hgain as (row' & rows'' & Hrow' & Hgain & ->).
    destruct m as [|m]; [done|]. cbn [seq fmap list_fmap zip zip_with] in Hzs.
    injection Hzs as -> -> Hzs. cbn [seq]. constructor; [|by eapply IH].
    apply bind_ok in Hrow' as (g & Hg & Hrow'). injection Hrow' as <-.
    unfold Augmentation.gain_of in Hg. destruct l as [| |l|]; try done.
    destruct (dict_get _ _) as [g'|] eqn:Hdict; [|done]. injection Hg as <-.
    cbn [fst snd] in *. by exists q, t, l, g'.
Qed.

Variable shuffle_merged : DataFrame → DataFrame → option exn.

(** Once the frame [new] is built, the call ends as its last statement
    does. *)
Lemma augment_text_after_loop df samples new :
  is_Some (index_of "target" (columns df)) →
  Augmentation.new_frame random_draw synonym_augment df samples = Ok new →
  Augmentation.augment_text random_draw synonym_augment shuffle_merged df samples =
    match shuffle_merged df new with Some e => Raise e | None => Ok new end.
Proof.
  intros [j Hj] Hnew. unfold Augmentation.augment_text, getattr. rewrite Hj.
  cbn [mbind result_bind]. by rewrite Hnew.
Qed.

End Augmenter.

(** *** Sample runs and the gain column *)

Lemma sample_builder_run :
  dataset_builder rev_shuffle exact_ceil_mul (sample_args us 1) sample_pairs sample_catalogue =
  Ok (sample_train, sample_dev).
Proof. vm_compute. reflexivity. Qed.

Lemma rev_shuffle_perm seed l : rev_shuffle seed l ≡ₚ l.
Proof. symmetry. apply Permutation_rev. Qed.

Lemma train_dev_partition_witness :
  list_to_set (C := gset Z) (query_id <$> sample_train) ##
    list_to_set (C := gset Z) (query_id <$> sample_dev) ∧
  list_to_set (C := gset Z) (query_id <$> sample_train) ∪ list_to_set (query_id <$> sample_dev) =
    list_to_set ((λ r, p_query_id r.1) <$> joined_frame us sample_pairs sample_catalogue).
Proof.
  apply (train_dev_partition rev_shuffle exact_ceil_mul (sample_args us 1)
           sample_pairs sample_catalogue sample_train sample_dev).
  - apply rev_shuffle_perm.
  - vm_compute. reflexivity.
Defined.

Lemma dataset_builder_dev_too_large_witness :
  dataset_builder rev_shuffle exact_ceil_mul (sample_args us 3) sample_pairs sample_catalogue =
    Raise ZeroDivisionError ∨
  dataset_builder rev_shuffle exact_ceil_mul (sample_args us 3) sample_pairs sample_catalogue =
    Raise (ValueError "test_size should be a float in the (0, 1) range").
Proof.
  apply (dataset_builder_dev_too_large rev_shuffle exact_ceil_mul (sample_args us 3)).
  vm_compute. discriminate.
Defined.

(** C2.  The two gain tables are the same fixed mapping; every row of the
    two frames the builder returns, and every row of the frame the augmenter
    builds, carries the gain the table gives for its label. *)
Theorem gain_from_esci_label shuffled float_ceil_mul args df cat train dev
    random_draw synonym_augment frame samples new :
  dataset_builder shuffled float_ceil_mul args df cat = Ok (train, dev) →
  Augmentation.new_frame random_draw synonym_augment frame samples = Ok new →
  esci_label2gain = [ (lit "exact", 1%Q); (lit "substitute", (1 # 10)%Q);
                      (lit "complement", (1 # 100)%Q); (lit "irrelevant", 0%Q) ] ∧
  Augmentation.esci_label2gain = esci_label2gain ∧
  Forall (λ r, dict_get esci_label2gain (esci_label r) = Some (gain r)) (train ++ dev) ∧
  Forall (λ row, ∃ q t l g, row = [q; t; VStr l; VFloat g] ∧
                            dict_get esci_label2gain l = Some g) (records new).
Proof.
  intros Hb Hn. split; [done|]. split; [done|]. split.
  - apply dataset_builder_ok in Hb. cbn zeta in Hb.
    destruct Hb as (n_test & rows & _ & Hrows & -> & ->).
    assert (Forall (λ r, dict_get esci_label2gain (esci_label r) = Some (gain r)) rows) as H.
    { clear -Hrows. induction Hrows as [|r row ?? Hr _ IH]; constructor; [|done].
      by apply with_gain_ok in Hr as [_ ?]. }
    apply Forall_app. split; apply Forall_forall; intros r [_ Hr]%list_elem_of_filter;
      by eapply Forall_forall in H.
  - apply new_frame_rows in Hn as [_ Hn]. clear -Hn.
    induction Hn as [|k row ?? (q & t & l & g & -> & _ & _ & _ & Hg) _ IH]; constructor; [|done].
    by exists (synonym_augment k q), t, l, g.
Qed.

Lemma gain_from_esci_label_witness :
  Forall (λ r, dict_get esci_label2gain (esci_label r) = Some (gain r)) (sample_train ++ sample_dev).
Proof.
  eapply (gain_from_esci_label rev_shuffle exact_ceil_mul (sample_args us 1) sample_pairs
            sample_catalogue sample_train sample_dev count_up no_synonyms
            (to_frame sample_train) 3).
  - vm_compute. reflexivity.
  - vm_compute. reflexivity.
Defined.

(** *** The dev reranking samples *)

Lemma add_title_eq row qid (ds : gmap nat DevSample) :
  (if gain_positive (gain row)
   then alter (λ s, {| ds_query := ds_query s;
                       positive := positive s ∪ {[product_title row]};
                       negative := negative s |}) qid ds
   else alter (λ s, {| ds_query := ds_query s;
                       positive := positive s;
                       negative := negative s ∪ {[product_title row]} |}) qid ds) =
  alter (add_title row) qid ds.
Proof. unfold add_title. by destruct (gain_positive (gain row)). Qed.

Lemma entry_snoc rows r q :
  entry (rows ++ [r]) q = if decide (query r = q) then add_title r (entry rows q) else entry rows q.
Proof.
  unfold entry, add_title. rewrite !filter_app, !fmap_app, !list_to_set_app_L.
  rewrite !filter_cons, !filter_nil. destruct (decide (query r = q)) as [Hq|Hq].
  - destruct (gain_positive (gain r)) eqn:Hg; cbn [ds_query positive negative].
    + rewrite decide_True by done. rewrite decide_False by (intros [_ ?]; done).
      cbn [fmap list_fmap list_to_set]. by rewrite !(right_id_L ∅ (∪)).
    + rewrite decide_False by (intros [_ ?]; done). rewrite decide_True by done.
      cbn [fmap list_fmap list_to_set]. by rewrite !(right_id_L ∅ (∪)).
  - rewrite !decide_False by (intros [? _]; done).
    cbn [fmap list_fmap list_to_set]. by rewrite !(right_id_L ∅ (∪)).
Qed.

Lemma entry_fresh rows q :
  q ∉ query <$> rows → entry rows q = {| ds_query := q; positive := ∅; negative := ∅ |}.
Proof.
  intros Hq. unfold entry.
  assert (∀ b, filter (λ r, query r = q ∧ gain_positive (gain r) = b) rows = []) as H; [|by rewrite !H].
  intros b. induction rows as [|r rows IH]; [done|].
  rewrite fmap_cons, not_elem_of_cons in Hq. destruct Hq as [Hr Hq].
  rewrite filter_cons, decide_False by (intros [? _]; done). by apply IH.
Qed.

Lemma dev_fold_inv rows :
  let st := fold_left dev_step rows (∅, ∅) in
  let qs := unique (query <$> rows) in
  (∀ q k, st.1 !! q = Some k ↔ qs !! k = Some q) ∧
  size st.1 = length qs ∧
  (∀ k, st.2 !! k = entry rows <$> qs !! k).
Proof.
  induction rows as [|r rows IH] using rev_ind; cbn zeta.
  - cbn. split_and!; [|done|]; intros; rewrite ?lookup_empty; done.
  - rewrite fold_left_app, fmap_app. cbn [fold_left fmap list_fmap]. rewrite unique_snoc.
    cbn zeta in IH. destruct (fold_left dev_step rows (∅, ∅)) as [q2id ds].
    cbn [fst snd] in IH. destruct IH as (I1 & I2 & I3).
    set (qs := unique (query <$> rows)) in *.
    unfold dev_step. cbn [fst snd]. rewrite add_title_eq.
    destruct (decide (query r ∈ query <$> rows)) as [Hin|Hin].
    + apply (elem_of_unique (query <$> rows)) in Hin. fold qs in Hin.
      apply list_elem_of_lookup in Hin as [k0 Hk0].
      pose proof (proj2 (I1 _ _) Hk0) as Hq. rewrite Hq. cbn [from_option fst snd]. unfold id.
      rewrite (I3 k0), Hk0. cbn [fmap option_fmap option_map].
      split_and!; [done..|]. intros k. destruct (decide (k = k0)) as [->|Hk].
      * rewrite lookup_alter_eq, I3, Hk0. cbn. by rewrite entry_snoc, decide_True.
      * rewrite lookup_alter_ne by done. rewrite I3.
        destruct (qs !! k) as [q|] eqn:Hqk; [|done]. cbn.
        rewrite entry_snoc, decide_False; [done|]. intros <-. apply Hk.
        eapply NoDup_lookup; [apply (NoDup_unique (query <$> rows))|done..].
    + assert (q2id !! query r = None) as Hq.
      { destruct (q2id !! query r) as [k|] eqn:Hq; [|done]. destruct Hin.
        apply (elem_of_unique (query <$> rows)). apply I1 in Hq.
        by eapply list_elem_of_lookup_2. }
      rewrite Hq. cbn [from_option fst snd]. rewrite I2.
      assert (ds !! length qs = None) as Hds.
      { rewrite I3, lookup_ge_None_2; done. }
      rewrite Hds. split_and!.
      * intros q k. destruct (decide (q = query r)) as [->|Hne].
        -- rewrite lookup_insert_eq. split.
           ++ intros [= <-]. by rewrite lookup_app_r, Nat.sub_diag.
           ++ intros Hk. f_equal. destruct (decide (k < length qs)) as [Hlt|Hge].
              ** rewrite lookup_app_l in Hk by done. apply I1 in Hk. congruence.
              ** apply lookup_lt_Some in Hk. rewrite length_app in Hk. cbn in Hk. lia.
        -- rewrite lookup_insert_ne by done. rewrite I1. split.
           ++ intros Hk. by apply lookup_app_l_Some.
           ++ intros Hk. apply lookup_app_Some in Hk as [Hk|[_ Hk]]; [done|].
              apply list_lookup_singleton_Some in Hk as [_ ?]. congruence.
      * rewrite map_size_insert_None by done. rewrite length_app. cbn. lia.
      * intros k. destruct (decide (k = length qs)) as [->|Hk].
        -- rewrite lookup_alter_eq, lookup_insert_eq, lookup_app_r, Nat.sub_diag by done.
           cbn. by rewrite entry_snoc, decide_True, entry_fresh.
        -- rewrite lookup_alter_ne, lookup_insert_ne by done. rewrite I3.
           destruct (qs !! k) as [q|] eqn:Hqk.
           ++ rewrite (lookup_app_l_Some _ _ _ _ Hqk). cbn.
              rewrite entry_snoc, decide_False; [done|]. intros <-. destruct Hin.
              apply (elem_of_unique (query <$> rows)). by eapply list_elem_of_lookup_2.
           ++ apply lookup_ge_None in Hqk. rewrite lookup_ge_None_2; [done|].
              rewrite length_app. cbn. lia.
Qed.

Lemma gain_positive_false g : (0 <= g)%Q → gain_positive g = false ↔ Qeq_bool g 0 = true.
Proof.
  intros Hg. unfold gain_positive. rewrite negb_false_iff, Qle_bool_iff, Qeq_bool_iff.
  split; [intros; by apply Qle_antisym|intros ->; apply Qle_refl].
Qed.

(** C10.  The dev samples are keyed by the position of the query text among
    the distinct query texts in order of first appearance, whatever the
    query ids: the entry at a position holds that text, the titles of all the
    rows with that text whose gain is above zero as its positive set, and the
    titles of those whose gain is zero as its negative set. *)
Theorem dev_samples_grouped_by_query_text (rows : list Row) (k : nat) :
  Forall (λ r, (0 <= gain r)%Q) rows →
  dev_samples_of rows !! k =
    (λ q, {| ds_query := q;
             positive := list_to_set (product_title <$>
                           filter (λ r, query r = q ∧ gain_positive (gain r) = true) rows);
             negative := list_to_set (product_title <$>
                           filter (λ r, query r = q ∧ Qeq_bool (gain r) 0 = true) rows) |})
    <$> unique (query <$> rows) !! k.
Proof.
  intros Hrows. destruct (dev_fold_inv rows) as (_ & _ & ->).
  destruct (unique (query <$> rows) !! k) as [q|]; [|done]. cbn. unfold entry. do 4 f_equal.
  induction Hrows as [|r rows Hr _ IH]; [done|]. rewrite !filter_cons, IH.
  destruct (decide (query r = q ∧ gain_positive (gain r) = false)) as [[? Hg]|Hg].
  - apply gain_positive_false in Hg; [|done]. by rewrite decide_True.
  - rewrite decide_False; [done|]. intros [? Hg']. apply Hg. split; [done|].
    by apply gain_positive_false.
Qed.

(** Two rows with the query ids 3 and 8 and the same query text, and a third
    row with another text. *)
Lemma dev_samples_grouped_by_query_text_witness :
  dev_samples_of
    [ mk_row 3 "drill" "Cordless drill" 1 "exact";
      mk_row 8 "drill" "Garden hose 50ft" 0 "irrelevant";
      mk_row 8 "drill" "Cordless drill" (1 # 10) "substitute";
      mk_row 9 "lamp" "Garden hose 50ft" 0 "irrelevant" ] !! 0 =
  Some {| ds_query := lit "drill";
          positive := {[ lit "Cordless drill" ]};
          negative := {[ lit "Garden hose 50ft" ]} |}.
Proof.
  etrans.
  - apply (dev_samples_grouped_by_query_text
             [ mk_row 3 "drill" "Cordless drill" 1 "exact";
               mk_row 8 "drill" "Garden hose 50ft" 0 "irrelevant";
               mk_row 8 "drill" "Cordless drill" (1 # 10) "substitute";
               mk_row 9 "lamp" "Garden hose 50ft" 0 "irrelevant" ] 0).
    repeat constructor; vm_compute; discriminate.
  - vm_compute. reflexivity.
Defined.
(** *** The augmenter inside the training run *)

(** C4.  On the training frame that [main] builds, whatever its rows and
    whatever the number of samples asked for, the augmenter returns no table:
    the frame has no [target] column and the selection of the minority class
    raises. *)
Theorem augment_text_training_frame random_draw synonym_augment shuffle_merged
    (rows : list Row) (samples : nat) :
  Augmentation.augment_text random_draw synonym_augment shuffle_merged (to_frame rows) samples =
  Raise (AttributeError "target").
Proof. reflexivity. Qed.

(** On a frame with a [target] column, whenever the loop and the frame
    [new] are completed, that frame has one row for each requested sample,
    each with a gain of the fixed table, and the call ends as its last
    statement does: with the exception of that statement, or returning the
    frame. *)
Lemma augment_text_row_count random_draw synonym_augment shuffle_merged df samples new :
  is_Some (index_of "target" (columns df)) →
  Augmentation.new_frame random_draw synonym_augment df samples = Ok new →
  length (records new) = samples ∧
  Forall (λ row, ∃ q t l g, row = [q; t; VStr l; VFloat g] ∧
                            dict_get Augmentation.esci_label2gain l = Some g) (records new) ∧
  Augmentation.augment_text random_draw synonym_augment shuffle_merged df samples =
    match shuffle_merged df new with Some e => Raise e | None => Ok new end.
Proof.
  intros Htarget Hnew. split_and!; [| |by apply augment_text_after_loop].
  - apply new_frame_rows in Hnew as [_ Hnew].
    apply Forall2_length in Hnew. by rewrite length_seq in Hnew.
  - apply new_frame_rows in Hnew as [_ Hnew]. clear -Hnew.
    induction Hnew as [|k row ?? (q & t & l & g & -> & _ & _ & _ & Hg) _ IH];
      constructor; [|done]. by exists (synonym_augment k q), t, l, g.
Qed.

Lemma augment_text_row_count_witness :
  let new := {| columns := ["query"; "product_title"; "esci_label"; "gain"];
                records := [ [VStr (lit "cheap phone"); VStr (lit "Garden hose 50ft");
                              VStr (lit "irrelevant"); VFloat 0];
                             [VStr (lit "cheap phone"); VStr (lit "Garden hose 50ft");
                              VStr (lit "irrelevant"); VFloat 0] ] |} in
  length (records new) = 2 ∧
  Forall (λ row, ∃ q t l g, row = [q; t; VStr l; VFloat g] ∧
                            dict_get Augmentation.esci_label2gain l = Some g) (records new) ∧
  Augmentation.augment_text count_up no_synonyms shuffle_by_key irrelevant_frame 2 =
    match shuffle_by_key irrelevant_frame new with Some e => Raise e | None => Ok new end.
Proof.
  intros new.
  apply (augment_text_row_count count_up no_synonyms shuffle_by_key irrelevant_frame 2 new).
  - by eexists.
  - vm_compute. reflexivity.
Defined.


(** C3.  For locale "us" no call into the model library is made: the run
    ends with the error of the builder, or else with the missing [target]
    attribute raised by the augmenter, before the model is trained or
    saved. *)
Theorem us_run_stops_before_training U shuffled float_ceil_mul random_draw synonym_augment
    shuffle_merged args df cat :
  locale args = us →
  main U shuffled float_ceil_mul random_draw synonym_augment shuffle_merged args df cat =
    ([], match dataset_builder shuffled float_ceil_mul args df cat with
         | Ok _ => Raise (AttributeError "target")
         | Raise e => Raise e
         end).
Proof.
  intros Hus. unfold main. rewrite Hus.
  by destruct (dataset_builder shuffled float_ceil_mul args df cat) as [[train dev]|e].
Qed.

Lemma us_run_stops_before_training_witness :
  main ucd_excerpt rev_shuffle exact_ceil_mul count_up no_synonyms shuffle_by_key
       (sample_args us 1) sample_pairs sample_catalogue =
    ([], Raise (AttributeError "target")).
Proof.
  etrans.
  - by apply (us_run_stops_before_training ucd_excerpt rev_shuffle exact_ceil_mul count_up
                no_synonyms shuffle_by_key (sample_args us 1) sample_pairs sample_catalogue).
  - by rewrite sample_builder_run.
Defined.

(** For another locale the run reaches the training call. *)
Lemma es_run_trains :
  ∃ samples,
    main ucd_excerpt rev_shuffle exact_ceil_mul count_up no_synonyms shuffle_by_key
         (sample_args es 1) (sample_pairs ++ [mk_pair 8 "camisa roja" "es" "substitute" "P1"])
         sample_catalogue =
      ([ModelFit "sentence-transformers/multi-qa-mpnet-base-dot-v1" samples "model"; FinalEvaluation],
       Ok tt).
Proof. eexists. vm_compute. reflexivity. Qed.
(** *** The join of pairs and catalogue *)

Lemma joined_frame_elem loc df cat p t :
  (p, t) ∈ joined_frame loc df cat ↔
  p ∈ df ∧ p_query_locale p = locale_name loc ∧
  ∃ c, c ∈ cat ∧ c_product_id c = p_product_id p ∧ c_product_locale c = locale_name loc ∧
       c_product_title c = Some t.
Proof.
  unfold joined_frame, notna_title, merge_left. cbn zeta.
  rewrite list_elem_of_omap. split.
  - intros ([p' t'] & Hin & Heq). destruct t' as [t'|]; [|done]. injection Heq as -> ->.
    apply list_elem_of_bind in Hin as (p' & Hin & Hp').
    apply list_elem_of_filter in Hp' as [Hloc Hp'].
    destruct (filter _ _) as [|c0 cs] eqn:Hf.
    { by apply list_elem_of_singleton in Hin. }
    rewrite <- Hf in Hin. apply list_elem_of_fmap in Hin as (c & [= -> Ht] & Hc).
    apply list_elem_of_filter in Hc as [[Hid Hcl] Hc].
    apply list_elem_of_filter in Hc as [Hcl' Hc]. split_and!; [done..|]. by exists c.
  - intros (Hp & Hloc & c & Hc & Hid & Hcl & Ht). exists (p, Some t). split; [|done].
    apply list_elem_of_bind. exists p. split; [|by apply list_elem_of_filter].
    match goal with |- _ ∈ match ?m with _ => _ end => assert (c ∈ m) as Hin end.
    { apply list_elem_of_filter. split; [by rewrite Hloc|]. by apply list_elem_of_filter. }
    match goal with |- _ ∈ match ?m with _ => _ end => destruct m as [|c0 cs] eqn:Hf end.
    { by apply elem_of_nil in Hin. }
    apply list_elem_of_fmap. exists c. by rewrite Ht.
Qed.

(** A pair is in the joined frame, with a title, exactly when it has the
    requested locale and the catalogue has a product of that locale with its
    product id and that title; pairs without such a product are dropped. *)
Lemma joined_frame_spec loc df cat p t :
  (p, t) ∈ joined_frame loc df cat ↔
  p ∈ df ∧ p_query_locale p = locale_name loc ∧
  ∃ c, c ∈ cat ∧ c_product_id c = p_product_id p ∧ c_product_locale c = locale_name loc ∧
       c_product_title c = Some t.
Proof. apply joined_frame_elem. Qed.

(** *** Outcomes of the builder *)

Lemma mapM_result_Forall2 {A B} (f : A → result B) l l' :
  Forall2 (λ x y, f x = Ok y) l l' → mapM_result f l = Ok l'.
Proof.
  induction 1 as [|x y l l' Hx _ IH]; [done|]. cbn [mapM_result]. by rewrite Hx, IH.
Qed.

Lemma mapM_result_Exists {A B} (f : A → result B) l e :
  Exists (λ x, f x = Raise e) l → (∀ x e', x ∈ l → f x = Raise e' → e' = e) →
  mapM_result f l = Raise e.
Proof.
  intros Hex Hun. induction l as [|x l IH]; [by apply Exists_nil in Hex|].
  cbn [mapM_result]. destruct (f x) as [y|e'] eqn:Hx.
  - cbn. rewrite IH; [done| |].
    + apply Exists_cons in Hex as [Hex|Hex]; [congruence|done].
    + intros x' e' Hin. apply Hun. by right.
  - cbn. f_equal. eapply Hun; [by left|done].
Qed.

Lemma test_size_in_range (a : Z) (n : nat) :
  n ≠ 0 →
  Qle_bool (a # Pos.of_nat n) 0 || Qle_bool 1 (a # Pos.of_nat n) = false ↔
  (0 < a < Z.of_nat n)%Z.
Proof.
  intros Hn. pose proof (Nat2Pos.id n Hn) as H1.
  pose proof (positive_nat_Z (Pos.of_nat n)) as H2. rewrite H1 in H2.
  rewrite orb_false_iff, <- !not_true_iff_false, !Qle_bool_iff. unfold Qle. cbn [Qnum Qden].
  lia.
Qed.

Section Outcomes.
Variable shuffled : Z → list Z → list Z.
Variable float_ceil_mul : Q → nat → nat.


(** With a valid split, a label outside the gain table makes the builder
    raise [KeyError]. *)
Lemma dataset_builder_unknown_label args df cat :
  let joined := joined_frame (locale args) df cat in
  let n := length (unique ((λ r, p_query_id r.1) <$> joined)) in
  (0 < n_dev_queries args < Z.of_nat n)%Z →
  float_ceil_mul (n_dev_queries args # Pos.of_nat n) n ≠ n →
  Exists (λ r, dict_get esci_label2gain (p_esci_label r.1) = None) joined →
  dataset_builder shuffled float_ceil_mul args df cat = Raise (KeyError "esci_label2gain").
Proof.
  intros joined n Hr Hne Hex. unfold dataset_builder. cbn zeta. fold joined. fold n.
  unfold true_div. destruct n as [|m] eqn:Hn; [lia|].
  rewrite <- Hn in Hr, Hne |- *. cbn [mbind result_bind]. unfold train_test_split.
  fold joined. rewrite Hn at 1. rewrite <- Hn.
  rewrite (proj2 (test_size_in_range _ n ltac:(lia)) Hr).
  fold n. rewrite decide_False by lia. cbn [mbind result_bind].
  rewrite (mapM_result_Exists with_gain joined (KeyError "esci_label2gain")); [done| |].
  - eapply Exists_impl; [exact Hex|]. intros r Hr'. unfold with_gain. by rewrite Hr'.
  - intros r e _. unfold with_gain. destruct (dict_get _ _); [done|]. by intros [= <-].
Qed.

(** When no pair has the requested locale, or no product of that locale has
    a title, the joined frame is empty and the builder raises
    [ZeroDivisionError], whatever the number of dev queries. *)
Lemma dataset_builder_empty_locale args df cat :
  Forall (λ p, p_query_locale p ≠ locale_name (locale args)) df ∨
  Forall (λ c, c_product_locale c = locale_name (locale args) → c_product_title c = None) cat →
  dataset_builder shuffled float_ceil_mul args df cat = Raise ZeroDivisionError.
Proof.
  intros H.
  assert (joined_frame (locale args) df cat = []) as Hj.
  { destruct (joined_frame (locale args) df cat) as [|[p t] l] eqn:Hj; [done|]. exfalso.
    assert ((p, t) ∈ joined_frame (locale args) df cat) as Hin by (rewrite Hj; left).
    apply joined_frame_elem in Hin as (Hp & Hloc & c & Hc & _ & Hcl & Ht).
    destruct H as [H|H].
    - eapply Forall_forall in H; [|exact Hp]. done.
    - eapply Forall_forall in H; [|exact Hc]. rewrite (H Hcl) in Ht. done. }
  unfold dataset_builder. cbn zeta. by rewrite Hj.
Qed.

End Outcomes.


Lemma dataset_builder_unknown_label_witness :
  dataset_builder rev_shuffle exact_ceil_mul (sample_args us 1)
    (mk_pair 6 "red lamp" "us" "Exact" "P1" :: sample_pairs) sample_catalogue =
  Raise (KeyError "esci_label2gain").
Proof.
  apply (dataset_builder_unknown_label rev_shuffle exact_ceil_mul (sample_args us 1)).
  - by vm_compute.
  - by vm_compute.
  - apply Exists_cons_hd. reflexivity.
Defined.

Lemma dataset_builder_empty_locale_witness :
  dataset_builder rev_shuffle exact_ceil_mul (sample_args jp 1) sample_pairs sample_catalogue =
  Raise ZeroDivisionError.
Proof.
  apply (dataset_builder_empty_locale rev_shuffle exact_ceil_mul (sample_args jp 1)).
  left. repeat apply Forall_cons_2; try apply Forall_nil_2; by vm_compute.
Defined.

(** *** The rows of the two frames *)

Lemma filter_split {A} (P Q : A → Prop) `{∀ x, Decision (P x)} `{∀ x, Decision (Q x)} l :
  Forall (λ x, (P x ∨ Q x) ∧ ¬ (P x ∧ Q x)) l → filter P l ++ filter Q l ≡ₚ l.
Proof.
  induction 1 as [|x l [Hor Hnot] _ IH]; [done|].
  rewrite !filter_cons. destruct (decide (P x)), (decide (Q x)); try tauto.
  - cbn [app]. by rewrite IH.
  - rewrite <- Permutation_middle. by rewrite IH.
Qed.

Lemma with_gain_fields (joined : list (Pair * str)) rows :
  Forall2 (λ r row, with_gain r = Ok row) joined rows →
  (λ row, (query_id row, query row, product_title row, esci_label row)) <$> rows =
  (λ r, (p_query_id r.1, p_query r.1, r.2, p_esci_label r.1)) <$> joined.
Proof.
  induction 1 as [|r row joined rows Hr _ IH]; [done|].
  cbn [fmap list_fmap]. f_equal; [|done].
  unfold with_gain in Hr. destruct (dict_get _ _); [|done]. by injection Hr as <-.
Qed.

Section Frames.
Variable shuffled : Z → list Z → list Z.
Variable float_ceil_mul : Q → nat → nat.
Hypothesis shuffled_perm : ∀ seed l, shuffled seed l ≡ₚ l.

(** A successful run of the builder, with the test count named. *)
Lemma dataset_builder_frames args df cat train dev :
  dataset_builder shuffled float_ceil_mul args df cat = Ok (train, dev) →
  let joined := joined_frame (locale args) df cat in
  let ids := unique ((λ r, p_query_id r.1) <$> joined) in
  let n_test := float_ceil_mul (n_dev_queries args # Pos.of_nat (length ids)) (length ids) in
  let s := shuffled (random_state args) ids in
  ∃ rows,
    Forall2 (λ r row, with_gain r = Ok row) joined rows ∧
    train = filter (λ r, query_id r ∈ drop n_test s) rows ∧
    dev = filter (λ r, query_id r ∈ take n_test s) rows.
Proof.
  unfold dataset_builder. intros H. cbn zeta.
  apply bind_ok in H as (dev_size & Hsize & H).
  apply bind_ok in H as ([tr te] & Hsplit & H).
  apply bind_ok in H as (rows & Hrows & H). injection H as <- <-.
  unfold true_div in Hsize. destruct (length _) as [|m] eqn:Hlen; [done|].
  injection Hsize as <-. unfold train_test_split in Hsplit.
  destruct (_ || _); [done|]. case_decide as Hn; [done|]. injection Hsplit as <- <-.
  rewrite Hlen. exists rows. split; [by apply mapM_result_ok|]. split; [|done].
  cbn [fst]. f_equal. rewrite take_ge; [done|].
  rewrite length_drop, shuffled_perm, Hlen. lia.
Qed.

(** No row is lost or doubled by the split: the rows of the train frame
    followed by those of the dev frame are, up to their order, the rows of
    the joined frame, each with its query id, query, title and label. *)
Lemma train_dev_rows args df cat train dev :
  dataset_builder shuffled float_ceil_mul args df cat = Ok (train, dev) →
  (λ row, (query_id row, query row, product_title row, esci_label row)) <$> (train ++ dev) ≡ₚ
  (λ r, (p_query_id r.1, p_query r.1, r.2, p_esci_label r.1)) <$> joined_frame (locale args) df cat.
Proof.
  intros Hok. apply dataset_builder_frames in Hok. cbn zeta in Hok.
  destruct Hok as (rows & Hrows & -> & ->).
  rewrite <- (with_gain_fields _ _ Hrows). apply fmap_Permutation.
  set (ids := unique ((λ r, p_query_id r.1) <$> joined_frame (locale args) df cat)).
  set (s := shuffled (random_state args) ids).
  set (n_test := float_ceil_mul _ _).
  assert (NoDup s) as Hnd by (unfold s; rewrite shuffled_perm; apply NoDup_unique).
  apply filter_split. apply Forall_forall. intros row Hrow.
  assert (query_id row ∈ s) as Hin.
  { unfold s. rewrite shuffled_perm. unfold ids. apply (elem_of_unique _ _).
    rewrite <- (rows_query_ids _ _ Hrows). apply list_elem_of_fmap. by exists row. }
  rewrite <- (take_drop n_test s) in Hin, Hnd. apply elem_of_app in Hin.
  apply NoDup_app in Hnd as (_ & Hdisj & _). split; [tauto|].
  intros [H1 H2]. by eapply Hdisj.
Qed.

(** The dev frame holds as many distinct query ids as the splitter's test
    count (at most all of them), and the train frame the others. *)
Lemma dev_query_count args df cat train dev :
  dataset_builder shuffled float_ceil_mul args df cat = Ok (train, dev) →
  let n := length (unique ((λ r, p_query_id r.1) <$> joined_frame (locale args) df cat)) in
  let n_test := float_ceil_mul (n_dev_queries args # Pos.of_nat n) n in
  length (unique (query_id <$> dev)) = n_test `min` n ∧
  length (unique (query_id <$> train)) = n - n_test.
Proof.
  intros Hok. apply dataset_builder_frames in Hok. cbn zeta in Hok |- *.
  destruct Hok as (rows & Hrows & -> & ->).
  set (ids := unique ((λ r, p_query_id r.1) <$> joined_frame (locale args) df cat)).
  set (s := shuffled (random_state args) ids).
  set (n_test := float_ceil_mul _ _).
  assert (NoDup s) as Hnd by (unfold s; rewrite shuffled_perm; apply NoDup_unique).
  assert (length s = length ids) as Hlen by (unfold s; by rewrite shuffled_perm).
  assert (∀ x, x ∈ s → x ∈ query_id <$> rows) as Hs.
  { intros x. unfold s. rewrite shuffled_perm. unfold ids. rewrite elem_of_unique.
    by rewrite (rows_query_ids _ _ Hrows). }
  assert (∀ l, NoDup l → (∀ x, x ∈ l → x ∈ s) →
            length (unique (query_id <$> filter (λ r, query_id r ∈ l) rows)) = length l) as Hcount.
  { intros l Hl Hsub. apply Permutation_length. apply NoDup_Permutation.
    { apply (NoDup_unique (query_id <$> filter (λ r, query_id r ∈ l) rows)). }
    { done. }
    intros x. rewrite elem_of_unique, list_elem_of_fmap. split.
    - intros (r & -> & Hr). by apply list_elem_of_filter in Hr as [? _].
    - intros Hx. destruct (proj1 (list_elem_of_fmap _ _ _) (Hs x (Hsub x Hx))) as (r & -> & Hr).
      exists r. split; [done|]. by apply list_elem_of_filter. }
  rewrite <- (take_drop n_test s) in Hnd. apply NoDup_app in Hnd as (Ht & _ & Hd).
  split.
  - rewrite Hcount; [|done|apply subseteq_take].
    rewrite length_take, Hlen. done.
  - rewrite Hcount; [|done|apply subseteq_drop].
    rewrite length_drop, Hlen. done.
Qed.

End Frames.

Lemma train_dev_rows_witness :
  (λ row, (query_id row, query row, product_title row, esci_label row)) <$>
    (sample_train ++ sample_dev) ≡ₚ
  (λ r, (p_query_id r.1, p_query r.1, r.2, p_esci_label r.1)) <$>
    joined_frame us sample_pairs sample_catalogue.
Proof.
  apply (train_dev_rows rev_shuffle exact_ceil_mul rev_shuffle_perm (sample_args us 1)
           sample_pairs sample_catalogue sample_train sample_dev).
  vm_compute. reflexivity.
Defined.

Lemma dev_query_count_witness :
  length (unique (query_id <$> sample_dev)) = 1 ∧ length (unique (query_id <$> sample_train)) = 2.
Proof.
  apply (dev_query_count rev_shuffle exact_ceil_mul rev_shuffle_perm (sample_args us 1)
           sample_pairs sample_catalogue sample_train sample_dev).
  vm_compute. reflexivity.
Defined.

(** *** The training samples and the run for the other locales *)

Lemma train_samples_of_frame (rows : list Row) :
  train_samples_of (to_frame rows) =
  Ok ((λ r, {| texts := (VStr (query r), VStr (product_title r)); label := gain r |}) <$> rows).
Proof.
  unfold train_samples_of. apply mapM_result_Forall2.
  assert (length (records (to_frame rows)) = length rows) as -> by apply length_fmap.
  apply Forall2_same_length_lookup_2.
  { by rewrite length_seq, length_fmap. }
  intros i k y Hk Hy. apply lookup_seq in Hk as [-> _]. rewrite Nat.add_0_l.
  rewrite list_lookup_fmap in Hy. destruct (rows !! i) as [r|] eqn:Hr; [|done].
  injection Hy as <-. unfold input_example, iloc_get. cbn [to_frame records columns].
  rewrite list_lookup_fmap, Hr. reflexivity.
Qed.



(** *** The keys of the dev samples *)

(** The dev samples have one entry for each distinct query text, under the
    keys 0, 1, ... in order of first appearance, and no entry is empty:
    each holds at least one title. *)
Lemma dev_samples_keys (rows : list Row) :
  size (dev_samples_of rows) = length (unique (query <$> rows)) ∧
  (∀ k, is_Some (dev_samples_of rows !! k) ↔ k < length (unique (query <$> rows))) ∧
  (∀ k s, dev_samples_of rows !! k = Some s → positive s ∪ negative s ≠ ∅).
Proof.
  destruct (dev_fold_inv rows) as (_ & _ & Hl). cbn zeta in Hl.
  fold (dev_samples_of rows) in Hl.
  assert (∀ k, is_Some (dev_samples_of rows !! k) ↔ k < length (unique (query <$> rows))) as Hk.
  { intros k. rewrite Hl, fmap_is_Some. apply lookup_lt_is_Some. }
  split_and!; [|done|].
  - rewrite <- size_dom.
    assert (dom (dev_samples_of rows) = set_seq (C := gset nat) 0 (length (unique (query <$> rows))))
      as ->; [|by rewrite size_set_seq].
    apply set_eq. intros k. rewrite elem_of_dom, Hk, elem_of_set_seq. lia.
  - intros k s. rewrite Hl. destruct (unique (query <$> rows) !! k) as [q|] eqn:Hq; [|done].
    intros [= <-]. apply list_elem_of_lookup_2, (elem_of_unique (query <$> rows)) in Hq.
    apply list_elem_of_fmap in Hq as (r & -> & Hr). unfold entry. cbn [positive negative].
    intros Hempty. apply (not_elem_of_empty (C := gset str) (product_title r)).
    rewrite <- Hempty. apply elem_of_union.
    destruct (gain_positive (gain r)) eqn:Hg; [left|right];
      apply elem_of_list_to_set, list_elem_of_fmap; exists r; (split; [done|]);
      by apply list_elem_of_filter.
Qed.

(** *** The augmenter on frames of its own *)

Section AugmenterRuns.
Variable random_draw : nat → nat.
Variable synonym_augment : nat → value → value.
Variable shuffle_merged : DataFrame → DataFrame → option exn.

Lemma augment_loop_succeeds df k draws :
  Forall (λ i, ∃ q t l, iloc_get df i "query" = Ok q ∧ iloc_get df i "product_title" = Ok t ∧
                        iloc_get df i "esci_label" = Ok (VStr l) ∧
                        is_Some (dict_get Augmentation.esci_label2gain l)) draws →
  ∃ rows, Augmentation.augment_loop synonym_augment df k draws = Ok rows ∧
          length rows = length draws ∧
          Forall (λ row, ∃ q t l, row = [q; t; VStr l] ∧
                                  is_Some (dict_get Augmentation.esci_label2gain l)) rows.
Proof.
  intros H. revert k. induction H as [|i draws (q & t & l & Hq & Ht & Hl & Hg) _ IH]; intros k.
  - by exists [].
  - destruct (IH (S k)) as (rows & Hrows & Hlen & Hall).
    exists ([synonym_augment k q; t; VStr l] :: rows). split_and!.
    + cbn [Augmentation.augment_loop]. unfold Augmentation.augment_one.
      rewrite Hq, Hl, Ht. cbn [mbind result_bind]. by rewrite Hrows.
    + cbn [length]. by rewrite Hlen.
    + constructor; [|done]. by eexists _, _, _.
Qed.

(** On a frame with a [target] column that is not empty and whose rows all
    have a string as query, a title and a label of the gain table, the loop
    and the frame [new] are completed: the call reaches its last statement
    with a frame of the four columns and exactly the requested number of
    rows, and ends as that statement does. *)
Lemma augment_text_builds_samples df samples :
  is_Some (index_of "target" (columns df)) →
  records df ≠ [] →
  (∀ i, i < length (records df) →
        ∃ q t l, iloc_get df i "query" = Ok (VStr q) ∧ iloc_get df i "product_title" = Ok t ∧
                 iloc_get df i "esci_label" = Ok (VStr l) ∧
                 is_Some (dict_get Augmentation.esci_label2gain l)) →
  ∃ new, columns new = ["query"; "product_title"; "esci_label"; "gain"] ∧
         length (records new) = samples ∧
         Augmentation.augment_text random_draw synonym_augment shuffle_merged df samples =
           match shuffle_merged df new with Some e => Raise e | None => Ok new end.
Proof.
  intros Htarget Hne Hrows.
  assert (∃ new, Augmentation.new_frame random_draw synonym_augment df samples = Ok new ∧
                 columns new = ["query"; "product_title"; "esci_label"; "gain"] ∧
                 length (records new) = samples) as (new & Hnew & Hcols & Hlen).
  { unfold Augmentation.new_frame, Augmentation.randint.
    rewrite decide_False by (intros [? _]; by destruct (records df)). cbn [mbind result_bind].
    destruct (augment_loop_succeeds df 0
                ((λ k, random_draw k `mod` length (records df)) <$> seq 0 samples))
      as (rows & -> & Hlen & Hall).
    { apply Forall_fmap, Forall_forall. intros k _. unfold compose.
      destruct (Hrows (random_draw k `mod` length (records df))) as (q & t & l & ? & ? & ? & ?).
      { apply Nat.mod_upper_bound. by destruct (records df). }
      by exists (VStr q), t, l. }
    cbn [mbind result_bind]. rewrite length_fmap, length_seq in Hlen.
    assert (∃ rows', mapM_result (λ row, match row with
                                         | [q; t; l] => g ← Augmentation.gain_of l; Ok [q; t; l; g]
                                         | _ => Raise IndexError
                                         end) rows = Ok rows' ∧ length rows' = length rows)
      as (rows' & -> & Hlen').
    { clear -Hall. induction Hall as [|row rows (q & t & l & -> & [g Hg]) _ (rows' & IH & Hlen)].
      - by exists [].
      - exists ([q; t; VStr l; VFloat g] :: rows'). cbn [mapM_result Augmentation.gain_of].
        rewrite Hg. cbn [mbind result_bind]. rewrite IH. cbn [length]. by rewrite Hlen. }
    eexists. split; [done|]. split; [done|]. cbn [records]. by rewrite Hlen'. }
  exists new. split_and!; [done..|]. by apply augment_text_after_loop.
Qed.

(** On an empty frame that has a [target] column the augmenter raises the
    [ValueError] of the random draw, when at least one sample is asked
    for. *)
Lemma augment_text_empty_frame df samples :
  is_Some (index_of "target" (columns df)) → records df = [] → 0 < samples →
  Augmentation.augment_text random_draw synonym_augment shuffle_merged df samples =
  Raise (ValueError "low >= high").
Proof.
  intros [j Hj] Hrec Hs. unfold Augmentation.augment_text, getattr. rewrite Hj.
  cbn [mbind result_bind]. unfold Augmentation.new_frame, Augmentation.randint.
  rewrite Hrec. cbn [length]. rewrite decide_True; [done|]. split; [done|lia].
Qed.


End AugmenterRuns.

Lemma augment_text_builds_samples_witness :
  ∃ new, columns new = ["query"; "product_title"; "esci_label"; "gain"] ∧
         length (records new) = 3 ∧
         Augmentation.augment_text count_up no_synonyms shuffle_by_key irrelevant_frame 3 =
           match shuffle_by_key irrelevant_frame new with Some e => Raise e | None => Ok new end.
Proof.
  apply (augment_text_builds_samples count_up no_synonyms shuffle_by_key irrelevant_frame 3).
  - by eexists.
  - done.
  - intros i Hi. cbn in Hi. destruct i as [|i]; [|lia].
    by exists (lit "cheap phone"), (VStr (lit "Garden hose 50ft")), (lit "irrelevant").
Defined.

Lemma augment_text_empty_frame_witness :
  Augmentation.augment_text count_up no_synonyms shuffle_by_key
    {| columns := ["query"; "esci_label"; "product_title"; "target"]; records := [] |} 5 =
  Raise (ValueError "low >= high").
Proof.
  apply (augment_text_empty_frame count_up no_synonyms shuffle_by_key); [by eexists|done|lia].
Defined.

End Pipeline.

Import Py Train Normalizer.

Example ex1 : preprocess ucd_excerpt (lit "10 gal tank") = lit "10 gallon tank".
Proof. vm_compute. reflexivity. Qed.
Example ex2 : preprocess ucd_excerpt (lit "<b>Drill</b> 10in") = lit "b drill b 10 in".
Proof. vm_compute. reflexivity. Qed.
Example ex3 : preprocess ucd_excerpt (lit "gal gal") = lit "gallon gallon".
Proof. vm_compute. reflexivity. Qed.
Example ex4 : standardize_units (lit "gal gal") = lit " gallon gal ".
Proof. vm_compute. reflexivity. Qed.
Example ex5 : preprocess ucd_excerpt [304%N] = [105; 32; 775]%N.
Proof. vm_compute. reflexivity. Qed.
Example ex6 : preprocess ucd_excerpt [105; 32; 775]%N = [105]%N.
Proof. vm_compute. reflexivity. Qed.
Example ex7 : clean_text (lit "<b>Drill</b> 10in <> a<b") = lit "Drill 10in <> a<b".
Proof. vm_compute. reflexivity. Qed.
Example ex8 : preprocess ucd_excerpt (lit "The 5in. x 3FT board, 2lbs") = lit "the 5 inch x 3 feet board 2 pound".
Proof. vm_compute. reflexivity. Qed.
